(** * Geofenced live feed and notification engine of the listings board

    A shallow embedding of the third [AppContent] component of
    [frontend/src/App.js]: the haversine distance, the radius filter, the
    registries kept in React state and the polling effect that raises the
    nearby and collected notifications.

    Conventions of the embedding.
    - In [Geo] and [Poll] a JavaScript number is idealised as a real
      number: [Math.sin], [Math.cos], [Math.sqrt], [Math.atan2] and
      [Math.PI] are the functions and the constant of analysis, and
      comparisons are decided classically.  [Double] has the distance on
      doubles, with the IEEE operations of the primitive floats.
    - A post id, a title and a status are strings, compared with [===].
    - React state is a record; a functional updater queued by a callback is
      an [Action] that is applied to the live state when the callback
      returns, so the values captured by the closure (the snapshot) and the
      live state are kept apart.
    - The network is an input: every call of [axios.get] is given its
      outcome.
    - [Poll.run] is a component on which one thing happens at a time;
      [Async.play] is a component with requests in flight, where the
      answer to a callback finds the state other callbacks have left. *)

From Stdlib Require Import Reals Lra List String Bool Arith Lia.
Import ListNotations.

Open Scope string_scope.

(** ** Numbers *)

Module Num.

Local Open Scope R_scope.

(** [x <= y] on numbers, as a boolean. *)
Definition leb (x y : R) : bool := if Rle_dec x y then true else false.

(** [Math.atan2 y x]: the angle of the point [(x, y)], in [(-PI, PI]]. *)
Definition atan2 (y x : R) : R :=
  if Rlt_dec 0 x then atan (y / x)
  else if Rlt_dec x 0 then
    if Rle_dec 0 y then atan (y / x) + PI else atan (y / x) - PI
  else if Rlt_dec 0 y then PI / 2
  else if Rlt_dec y 0 then - (PI / 2)
  else 0.

End Num.

(** ** Distance and radius filter *)

Module Geo.

Local Open Scope R_scope.

(** An item of the feed, with the fields the engine reads. *)
Record Post := mkPost {
  id : string;
  title : string;
  category : string;
  latitude : R;
  longitude : R;
  status : string
}.

(** [userLocation]: the pair [[lat, lon]]; [None] is [null]. *)
Definition Location := (R * R)%type.

(** [getDistance(lat1, lon1, lat2, lon2)], the haversine formula, read
    over the real numbers; [Double.getDistance] is the same expression on
    doubles. *)
Definition getDistance (lat1 lon1 lat2 lon2 : R) : R :=
  let R0 := 6371 in
  let dLat := (lat2 - lat1) * PI / 180 in
  let dLon := (lon2 - lon1) * PI / 180 in
  let a :=
    sin (dLat / 2) * sin (dLat / 2) +
    cos (lat1 * PI / 180) * cos (lat2 * PI / 180) *
    sin (dLon / 2) * sin (dLon / 2) in
  let c := 2 * Num.atan2 (sqrt a) (sqrt (1 - a)) in
  R0 * c.

(** The quantity [a] of the formula, named for the statements below. *)
Definition haversine_a (lat1 lon1 lat2 lon2 : R) : R :=
  (sin ((lat2 - lat1) * PI / 180 / 2))² +
  cos (lat1 * PI / 180) * cos (lat2 * PI / 180) *
  (sin ((lon2 - lon1) * PI / 180 / 2))².

(** [filterPostsByRadius(allPosts, location, radius)]. *)
Definition filterPostsByRadius
    (allPosts : list Post) (location : option Location) (radius : R) : list Post :=
  match location with
  | None => allPosts
  | Some (lat, lon) =>
      filter (fun post =>
                let distance := getDistance lat lon (latitude post) (longitude post) in
                Num.leb distance radius)
             allPosts
  end.

(** [postsInRadius], the memoised view over [filteredPosts]. *)
Definition postsInRadius
    (filteredPosts : list Post) (userLocation : option Location) (radiusKm : R) : list Post :=
  match userLocation with
  | None => filteredPosts
  | Some (lat, lon) =>
      filter (fun post =>
                let distance := getDistance lat lon (latitude post) (longitude post) in
                Num.leb distance radiusKm)
             filteredPosts
  end.

(** [getDisplayPosts()]: category and favourites applied to [postsInRadius];
    [selectedCategory] is [None] for [null]. *)
Definition getDisplayPosts
    (inRadius : list Post) (selectedCategory : option string)
    (showFavoritesOnly : bool) (favorites : list string) : list Post :=
  let result := inRadius in
  let result :=
    match selectedCategory with
    | Some c => if c =? "" then result
                else filter (fun post => category post =? c) result
    | None => result
    end in
  if showFavoritesOnly
  then filter (fun post => existsb (String.eqb (id post)) favorites) result
  else result.

End Geo.

(** ** Registries, the feed and the polling effect *)

Module Poll.

Import Geo.
Local Open Scope R_scope.
Local Open Scope list_scope.

(** [array.includes(x)] on an array of strings. *)
Definition includes (l : list string) (x : string) : bool :=
  existsb (String.eqb x) l.

(** The React state of [AppContent] that this engine reads and writes. *)
Record AppState := mkState {
  posts : list Post;
  filteredPosts : list Post;
  loading : bool;
  userLocation : option Location;
  radiusKm : R;
  myPostIds : list string;
  lastSeenPostIds : list string;
  nearbyNotificationsEnabled : bool;
  favorites : list string
}.

(** The second argument of [showNotification]. *)
Inductive Kind := nearby | collected.

(** One call of [showNotification].  The banner text is built from the
    title alone; [subject] records the id of the post the call site
    was looking at. *)
Record Notification := mkNote {
  kind : Kind;
  subject : string;
  about : string
}.

(** Outcome of [axios.get] on the posts endpoint: the body, or a rejection. *)
Inductive FetchResult :=
| FetchOk (data : list Post)
| FetchFailed.

(** What a callback does besides reading its closure: calls and queued
    state updates, in program order.  [GetPosts] is the request itself. *)
Inductive Action :=
| GetPosts
| ShowNotification (n : Notification)
| MarkSeen (i : string)
| ReleaseOwned (i : string)
| SetPosts (l : list Post)
| SetFilteredPosts (l : list Post)
| SetLoading (b : bool)
| ToastError
| ConsoleError.

Definition kind_eqb (a b : Kind) : bool :=
  match a, b with
  | nearby, nearby | collected, collected => true
  | _, _ => false
  end.

Definition nearbyRadius : R := 1.

(** Body of [currentPosts.forEach(post => ...)] in the nearby check; the
    seen and owned arrays are the ones the closure captured. *)
Definition nearby_body (snap : AppState) (loc : Location) (post : Post) : list Action :=
  if includes (lastSeenPostIds snap) (id post) then []
  else if includes (myPostIds snap) (id post) then []
  else
    let distance := getDistance (fst loc) (snd loc) (latitude post) (longitude post) in
    if Num.leb distance nearbyRadius && (status post =? "active")
    then [ShowNotification (mkNote nearby (id post) (title post)); MarkSeen (id post)]
    else [].

(** Body of [myPostIds.forEach(myPostId => ...)] in the collected check. *)
Definition collected_body (currentPosts : list Post) (myPostId : string) : list Action :=
  match find (fun p => id p =? myPostId) currentPosts with
  | Some myPost =>
      if status myPost =? "collected"
      then [ShowNotification (mkNote collected myPostId (title myPost));
            ReleaseOwned myPostId]
      else []
  | None => []
  end.

(** [checkForUpdates], run with the closure [snap] and the outcome of its
    request. *)
Definition checkForUpdates (snap : AppState) (response : FetchResult) : list Action :=
  GetPosts ::
  match response with
  | FetchOk currentPosts =>
      (match userLocation snap with
       | Some loc => flat_map (nearby_body snap loc) currentPosts
       | None => []
       end)
      ++ flat_map (collected_body currentPosts) (myPostIds snap)
      ++ [SetPosts currentPosts; SetFilteredPosts currentPosts]
  | FetchFailed => [ConsoleError]
  end.

(** [fetchPosts], run with the closure [snap]. *)
Definition fetchPosts (snap : AppState) (response : FetchResult) : list Action :=
  GetPosts ::
  match response with
  | FetchOk data =>
      [SetPosts data;
       SetFilteredPosts
         (match userLocation snap with
          | Some loc => filterPostsByRadius data (Some loc) (radiusKm snap)
          | None => data
          end);
       SetLoading false]
  | FetchFailed => [ConsoleError; ToastError; SetLoading false]
  end.

(** One action applied to the live state; a notification goes to the log. *)
Definition apply (s : AppState) (a : Action) : AppState * list Notification :=
  match a with
  | GetPosts => (s, [])
  | ShowNotification n => (s, [n])
  | MarkSeen i =>
      (mkState (posts s) (filteredPosts s) (loading s) (userLocation s) (radiusKm s)
               (myPostIds s) (lastSeenPostIds s ++ [i])
               (nearbyNotificationsEnabled s) (favorites s), [])
  | ReleaseOwned i =>
      (mkState (posts s) (filteredPosts s) (loading s) (userLocation s) (radiusKm s)
               (filter (fun x => negb (x =? i)) (myPostIds s)) (lastSeenPostIds s)
               (nearbyNotificationsEnabled s) (favorites s), [])
  | SetPosts l =>
      (mkState l (filteredPosts s) (loading s) (userLocation s) (radiusKm s)
               (myPostIds s) (lastSeenPostIds s)
               (nearbyNotificationsEnabled s) (favorites s), [])
  | SetFilteredPosts l =>
      (mkState (posts s) l (loading s) (userLocation s) (radiusKm s)
               (myPostIds s) (lastSeenPostIds s)
               (nearbyNotificationsEnabled s) (favorites s), [])
  | SetLoading b =>
      (mkState (posts s) (filteredPosts s) b (userLocation s) (radiusKm s)
               (myPostIds s) (lastSeenPostIds s)
               (nearbyNotificationsEnabled s) (favorites s), [])
  | ToastError => (s, [])
  | ConsoleError => (s, [])
  end.

(** The actions of a callback committed in order. *)
Fixpoint commit (s : AppState) (l : list Action) : AppState * list Notification :=
  match l with
  | [] => (s, [])
  | a :: l' =>
      let (s1, n1) := apply s a in
      let (s2, n2) := commit s1 l' in
      (s2, n1 ++ n2)
  end.

(** The effect on [[userLocation, radiusKm, posts]]: filter again. *)
Definition refilter_effect (s : AppState) : AppState :=
  match posts s, userLocation s with
  | _ :: _, Some loc =>
      fst (apply s (SetFilteredPosts
                      (filterPostsByRadius (posts s) (Some loc) (radiusKm s))))
  | _, _ => s
  end.

(** The effect on [[posts, lastSeenPostIds.length]]: the first non-empty
    list of posts seen with an empty seen array becomes the seen array. *)
Definition baseline_effect (s : AppState) : AppState :=
  match posts s, lastSeenPostIds s with
  | _ :: _, [] =>
      mkState (posts s) (filteredPosts s) (loading s) (userLocation s) (radiusKm s)
              (myPostIds s) (map id (posts s))
              (nearbyNotificationsEnabled s) (favorites s)
  | _, _ => s
  end.

(** The two effects, in the order the component declares them. *)
Definition effects (s : AppState) : AppState :=
  baseline_effect (refilter_effect s).

(** [checkForUpdates] from the answer of its request on.  The callback
    holds the state [snap] of the render that created it, which is the
    state the component was in when the interval fired; what it queues is
    applied to the state [live] the component is in when the answer
    arrives, and the effects run after a successful answer. *)
Definition finish_check (snap live : AppState) (response : FetchResult)
  : AppState * list Notification :=
  match response with
  | FetchOk _ =>
      let (s', log) := commit live (checkForUpdates snap response) in
      (effects s', log)
  | FetchFailed => commit live (checkForUpdates snap response)
  end.

(** [fetchPosts] from the answer of its request on, likewise. *)
Definition finish_load (snap live : AppState) (response : FetchResult)
  : AppState * list Notification :=
  match response with
  | FetchOk _ =>
      let (s', log) := commit live (fetchPosts snap response) in
      (effects s', log)
  | FetchFailed => commit live (fetchPosts snap response)
  end.

(** One firing of the 30 s interval whose request is answered before
    anything else happens to the component: the state the callback holds
    is the live state.  The interval exists only while notifications are
    enabled. *)
Definition poll_tick (s : AppState) (response : FetchResult)
  : AppState * list Notification :=
  if nearbyNotificationsEnabled s then finish_check s s response
  else (s, []).

(** One call of [fetchPosts] whose request is answered before anything
    else happens to the component. *)
Definition load_posts (s : AppState) (response : FetchResult)
  : AppState * list Notification :=
  finish_load s s response.

(** Everything that changes the state of the engine, for a component on
    which one thing happens at a time: every request is answered before
    the next operation. *)
Inductive Op :=
| Tick (response : FetchResult)
| Load (response : FetchResult)
| Locate (loc : Location)
| Created (newPostId : string)
| ToggleNotifications
| SetRadius (r : R)
| ToggleFavorite (postId : string).

(** [setUserLocation(loc)], then the filter effect. *)
Definition locate (s : AppState) (loc : Location) : AppState :=
  refilter_effect
    (mkState (posts s) (filteredPosts s) (loading s) (Some loc) (radiusKm s)
             (myPostIds s) (lastSeenPostIds s)
             (nearbyNotificationsEnabled s) (favorites s)).

(** The bookkeeping of [handleSubmitPost] once the server has answered
    with the id of the new post.  The handler sets the owned array to the
    array [captured] by its closure, the one of the render the form was
    submitted from, with the new id appended; an empty id is not
    recorded. *)
Definition created (captured : list string) (s : AppState) (newPostId : string)
  : AppState :=
  if newPostId =? EmptyString then s
  else
    let updatedMyPosts := captured ++ [newPostId] in
    mkState (posts s) (filteredPosts s) (loading s) (userLocation s) (radiusKm s)
            updatedMyPosts (lastSeenPostIds s)
            (nearbyNotificationsEnabled s) (favorites s).

(** [toggleNearbyNotifications]. *)
Definition toggleNearbyNotifications (s : AppState) : AppState :=
  mkState (posts s) (filteredPosts s) (loading s) (userLocation s) (radiusKm s)
          (myPostIds s) (lastSeenPostIds s)
          (negb (nearbyNotificationsEnabled s)) (favorites s).

(** [setRadiusKm(r)], then the filter effect. *)
Definition set_radius (s : AppState) (r : R) : AppState :=
  refilter_effect
    (mkState (posts s) (filteredPosts s) (loading s) (userLocation s) r
             (myPostIds s) (lastSeenPostIds s)
             (nearbyNotificationsEnabled s) (favorites s)).

(** [toggleFavorite(postId)]. *)
Definition toggleFavorite (s : AppState) (postId : string) : AppState :=
  let prev := favorites s in
  let newFavorites :=
    if includes prev postId
    then filter (fun i => negb (i =? postId)) prev
    else prev ++ [postId] in
  mkState (posts s) (filteredPosts s) (loading s) (userLocation s) (radiusKm s)
          (myPostIds s) (lastSeenPostIds s)
          (nearbyNotificationsEnabled s) newFavorites.

Definition step (s : AppState) (o : Op) : AppState * list Notification :=
  match o with
  | Tick r => poll_tick s r
  | Load r => load_posts s r
  | Locate loc => (locate s loc, [])
  | Created i => (created (myPostIds s) s i, [])
  | ToggleNotifications => (toggleNearbyNotifications s, [])
  | SetRadius r => (set_radius s r, [])
  | ToggleFavorite i => (toggleFavorite s i, [])
  end.

(** A session: the operations in the order they complete, with the
    notifications they raised. *)
Fixpoint run (s : AppState) (ops : list Op) : AppState * list Notification :=
  match ops with
  | [] => (s, [])
  | o :: ops' =>
      let (s1, n1) := step s o in
      let (s2, n2) := run s1 ops' in
      (s2, n1 ++ n2)
  end.

(** The interval alone: one response per firing. *)
Definition poll_ticks (s : AppState) (responses : list FetchResult)
  : AppState * list Notification :=
  run s (map Tick responses).

(** The component on mount, given what the registries loaded. *)
Definition initial (mine seen favs : list string) (enabled : bool) : AppState :=
  mkState [] [] true None 105 mine seen enabled favs.

(** *** Reading a list of actions *)

Definition marked (l : list Action) : list string :=
  flat_map (fun a => match a with MarkSeen i => [i] | _ => [] end) l.

Definition released (l : list Action) : list string :=
  flat_map (fun a => match a with ReleaseOwned i => [i] | _ => [] end) l.

Definition shown (l : list Action) : list Notification :=
  flat_map (fun a => match a with ShowNotification n => [n] | _ => [] end) l.

(** The number of requests a callback sends. *)
Definition requests (l : list Action) : nat :=
  List.length (filter (fun a => match a with GetPosts => true | _ => false end) l).

(** The seen array the baseline effect leaves, given the posts. *)
Definition baseline_ids (ps : list Post) (seen : list string) : list string :=
  match ps, seen with
  | _ :: _, [] => map id ps
  | _, _ => seen
  end.

(** The test the nearby check applies to one post, as one boolean. *)
Definition qualifies (snap : AppState) (loc : Location) (post : Post) : bool :=
  negb (includes (lastSeenPostIds snap) (id post)) &&
  negb (includes (myPostIds snap) (id post)) &&
  (Num.leb (getDistance (fst loc) (snd loc) (latitude post) (longitude post))
           nearbyRadius &&
   (status post =? "active")).

(** What the collected check observes for one owned id: the post found
    under that id when its status is collected. *)
Definition observed (currentPosts : list Post) (myPostId : string) : option Post :=
  match find (fun p => id p =? myPostId) currentPosts with
  | Some myPost => if status myPost =? "collected" then Some myPost else None
  | None => None
  end.

Definition was_collected (currentPosts : list Post) (myPostId : string) : bool :=
  match observed currentPosts myPostId with Some _ => true | None => false end.

(** The nearby notifications of a successful check. *)
Definition nearby_notes (s : AppState) (feed : list Post) : list Notification :=
  match userLocation s with
  | Some loc => map (fun p => mkNote nearby (id p) (title p)) (filter (qualifies s loc) feed)
  | None => []
  end.

(** The notifications of one kind in a log, by subject. *)
Definition subjects (k : Kind) (log : list Notification) : list string :=
  map subject (filter (fun n => kind_eqb (kind n) k) log).

End Poll.

(** ** Loading the registries *)

Module Registry.

(** [localStorage] as its [getItem]: [None] is [null]. *)
Definition Storage := string -> option string.

Definition setItem (ls : Storage) (key value : string) : Storage :=
  fun k => if k =? key then Some value else ls k.

Definition removeItem (ls : Storage) (key : string) : Storage :=
  fun k => if k =? key then None else ls k.

Local Unset Elimination Schemes.

(** A value [JSON.parse] can return. *)
Inductive Json :=
| JNull
| JBool (b : bool)
| JNumber (x : R)
| JString (s : string)
| JArray (l : list Json)
| JObject (fields : list (string * Json)).

Local Set Elimination Schemes.

(** How a state initializer ends: with a value, or with the exception
    that left it. *)
Inductive Outcome (A : Type) :=
| Returned (v : A)
| Threw.

Arguments Returned {A} v.
Arguments Threw {A}.

Section Initializers.

(** [JSON.parse(text)]; [None] when it throws a [SyntaxError]. *)
Variable JSON_parse : string -> option Json.

Variable localStorage : Storage.

(** [saved ? JSON.parse(saved) : []]: [null] and the empty string are
    falsy, and nothing catches what [JSON.parse] throws. *)
Definition parse_or_empty (saved : option string) : Outcome Json :=
  match saved with
  | None => Returned (JArray [])
  | Some text =>
      if text =? EmptyString then Returned (JArray [])
      else match JSON_parse text with
           | Some v => Returned v
           | None => Threw
           end
  end.

(** Initializer of [myPostIds]. *)
Definition init_myPostIds : Outcome Json :=
  let saved := localStorage "ucycle_my_posts" in
  parse_or_empty saved.

(** Initializer of [lastSeenPostIds]. *)
Definition init_lastSeenPostIds : Outcome Json :=
  let saved := localStorage "ucycle_seen_posts" in
  parse_or_empty saved.

(** Initializer of [favorites]. *)
Definition init_favorites : Outcome Json :=
  let saved := localStorage "ucycle_favorites" in
  parse_or_empty saved.

(** Initializer of [nearbyNotificationsEnabled]:
    [saved === null ? true : saved === 'true']. *)
Definition init_nearbyNotificationsEnabled : bool :=
  let saved := localStorage "ucycle_nearby_notifications" in
  match saved with
  | None => true
  | Some text => text =? "true"
  end.

End Initializers.

(** The text [toggleNearbyNotifications] stores: [String(newValue)]. *)
Definition flag_text (b : bool) : string := if b then "true" else "false".

End Registry.

(** ** Sample data *)

Module Sample.

Import Geo Poll.
Local Open Scope R_scope.

Definition here : Location := (0, 0).
Definition far_away : Location := (0, 180).

Definition chair : Post := mkPost "p1" "Chair" "furniture" 0 0 "active".
Definition desk : Post := mkPost "p2" "Desk" "furniture" 0 180 "active".
Definition lamp : Post := mkPost "p3" "Lamp" "general" 0 0 "collected".

(** Empty registries, a load that failed, a location fix. *)
Definition fresh_located : AppState :=
  mkState [] [] false (Some here) 105 [] [] true [].

(** A device that owns the lamp and has no location fix. *)
Definition owner_unlocated : AppState :=
  mkState [] [] false None 105 ["p3"] ["p0"] true [].

(** A device at [here] whose baseline is done. *)
Definition settled : AppState :=
  mkState [] [] false (Some here) 105 [] ["p0"] true [].

(** A device at [here] that posted the chair. *)
Definition chair_owner : AppState :=
  mkState [] [] false (Some here) 105 ["p1"] ["p0"] true [].


End Sample.

(** ** Favourites, the flag and the partner region *)

From Stdlib Require Import ZArith DecimalString Ascii.

Module Saved.

Import Geo Poll Registry.
Local Open Scope R_scope.
Local Open Scope list_scope.

(** [isFavorite(postId)]. *)
Definition isFavorite (s : AppState) (postId : string) : bool :=
  includes (favorites s) postId.

(** [favoritesCount]: the posts whose id is a favourite. *)
Definition favoritesCount (s : AppState) : nat :=
  List.length (filter (fun p => includes (favorites s) (id p)) (posts s)).

(** [toggleNearbyNotifications] with the write it makes to storage:
    the new value is stored as [String(newValue)]. *)
Definition toggle_stored (s : AppState) (ls : Storage) : AppState * Storage :=
  let newValue := negb (nearbyNotificationsEnabled s) in
  (toggleNearbyNotifications s,
   setItem ls "ucycle_nearby_notifications" (flag_text newValue)).

Definition penrithLat : R := -33.7507.
Definition penrithLng : R := 150.6944.

(** [isInSydneyMetro()]. *)
Definition isInSydneyMetro (userLocation : option Location) : bool :=
  match userLocation with
  | None => false
  | Some (lat, lon) =>
      let distance := getDistance lat lon penrithLat penrithLng in
      Num.leb distance 300
  end.

(** [isInWesternSydney()]. *)
Definition isInWesternSydney (userLocation : option Location) : bool :=
  match userLocation with
  | None => false
  | Some (lat, lon) =>
      let distance := getDistance lat lon penrithLat penrithLng in
      Num.leb distance 50
  end.

End Saved.

(** ** Cards, images and the gallery *)

Module Card.

Local Open Scope Z_scope.

(** [String(n)] for a non-negative integer. *)
Definition decimal (n : Z) : string :=
  NilZero.string_of_uint (N.to_uint (Z.to_N n)).

(** [timeLeft()] of a post card; the two dates are valid and given in
    milliseconds. *)
Definition timeLeft (expires now : Z) : string :=
  let diff := expires - now in
  if diff <=? 0 then "Expired"
  else
    let hours := diff / (1000 * 60 * 60) in
    if hours <? 1 then "< 1 hour left"
    else (decimal hours ++ "h left")%string.

(** The [src] of an image: a data URL is kept, anything else is taken as
    the base64 body of a JPEG. *)
Definition imageSrc (imageBase64 : string) : string :=
  if String.prefix "data:" imageBase64 then imageBase64
  else ("data:image/jpeg;base64," ++ imageBase64)%string.

(** [s.split(',')]. *)
Fixpoint split_comma (s : string) : list string :=
  match s with
  | EmptyString => [EmptyString]
  | String c rest =>
      if Ascii.eqb c ","%char then EmptyString :: split_comma rest
      else match split_comma rest with
           | seg :: segs => String c seg :: segs
           | [] => [String c EmptyString]
           end
  end.

(** [s.includes(',')]. *)
Fixpoint has_comma (s : string) : bool :=
  match s with
  | EmptyString => false
  | String c rest => Ascii.eqb c ","%char || has_comma rest
  end.

(** [image_base64.split(',')[1] || image_base64], as [handleSubmitPost]
    and [processImage] strip the primary image. *)
Definition strip_primary (image_base64 : string) : string :=
  match nth_error (split_comma image_base64) 1 with
  | Some body => if (body =? EmptyString)%string then image_base64 else body
  | None => image_base64
  end.

(** [img.includes(',') ? img.split(',')[1] : img], as [handleSubmitPost]
    strips an additional image; [None] is [undefined]. *)
Definition strip_additional (img : string) : option string :=
  if has_comma img then nth_error (split_comma img) 1 else Some img.

End Card.

Module Gallery.

Local Open Scope R_scope.

(** [x > y] and [x < y] on numbers. *)
Definition gtb (x y : R) : bool := if Rlt_dec y x then true else false.
Definition ltb (x y : R) : bool := if Rlt_dec x y then true else false.

(** [i => i < imagesCount - 1 ? i + 1 : 0]. *)
Definition next_image (imagesCount i : Z) : Z :=
  if (i <? imagesCount - 1)%Z then (i + 1)%Z else 0%Z.

(** [i => i > 0 ? i - 1 : imagesCount - 1]. *)
Definition prev_image (imagesCount i : Z) : Z :=
  if (i >? 0)%Z then (i - 1)%Z else (imagesCount - 1)%Z.

(** [handleGalleryTouchEnd]: [diff] is where the touch started minus
    where it ended; the result is the new [currentImageIndex]. *)
Definition handleGalleryTouchEnd (diff : R) (imagesCount i : Z) : Z :=
  if (imagesCount <=? 1)%Z then i
  else
    let threshold := 50 in
    if gtb (Rabs diff) threshold then
      if gtb diff 0 then next_image imagesCount i else prev_image imagesCount i
    else i.

(** The state of the fullscreen viewer. *)
Record Viewer := mkViewer {
  showFullscreenImage : bool;
  fullscreenSwipeY : R;
  fullscreenIndex : Z
}.

(** [handleFullscreenTouchEnd], for a viewer that holds [count] images. *)
Definition handleFullscreenTouchEnd (diffX diffY : R) (count : Z) (v : Viewer) : Viewer :=
  if gtb diffY 100 && ltb (Rabs diffX) 50 then
    mkViewer false 0 (fullscreenIndex v)
  else
    let index :=
      if gtb (Rabs diffX) 50 && (count >? 1)%Z then
        if gtb diffX 0 then next_image count (fullscreenIndex v)
        else prev_image count (fullscreenIndex v)
      else fullscreenIndex v in
    mkViewer (showFullscreenImage v) 0 index.

(** The opacity of the fullscreen viewer while it is dragged down. *)
Definition opacity (swipeY : R) : R :=
  if gtb swipeY 0 then Rmax 0.3 (1 - swipeY / 300) else 1.

End Gallery.

(** ** The camera and the post form *)

Module Camera.

Local Open Scope R_scope.

(** [clampedZoom] of [applyCameraZoom]. *)
Definition clampedZoom (newZoom maxZoom : R) : R :=
  Rmin (Rmax newZoom 1) maxZoom.

(** A rectangle of the video frame: corner and size. *)
Record Rect := mkRect { rx : R; ry : R; rw : R; rh : R }.

(** The part of the video frame [capturePhoto] draws on the canvas. *)
Definition captured (videoWidth videoHeight cameraZoom : R) : Rect :=
  if Gallery.gtb cameraZoom 1 then
    let zoomFactor := cameraZoom in
    let cropWidth := videoWidth / zoomFactor in
    let cropHeight := videoHeight / zoomFactor in
    let cropX := (videoWidth - cropWidth) / 2 in
    let cropY := (videoHeight - cropHeight) / 2 in
    mkRect cropX cropY cropWidth cropHeight
  else mkRect 0 0 videoWidth videoHeight.

(** The width and height [compressImage] draws an image at. *)
Definition scaled (width height maxWidth : R) : R * R :=
  if Gallery.gtb width maxWidth
  then (maxWidth, (height * maxWidth) / width)
  else (width, height).

End Camera.

Module Form.

Local Open Scope Z_scope.

(** [a.slice(0, e)] on an array. *)
Definition slice0 {A : Type} (a : list A) (e : Z) : list A :=
  let len := Z.of_nat (List.length a) in
  let final := if e <? 0 then Z.max (len + e) 0 else Z.min e len in
  firstn (Z.to_nat final) a.

Section Images.

(** A picked file and a compressed image. *)
Variables File Image : Type.

(** [compressImage(file)], once its promise has resolved. *)
Variable compressImage : File -> Image.

(** [handleAdditionalImages]: the additional images of the form after
    the files have been compressed.  The room left is counted on the
    images [captured] by the handler when the files were picked; the
    compressed images are appended to the images [prev] the form holds
    when the compression is done. *)
Definition handleAdditionalImages
    (captured prev : list Image) (files : list File) : list Image :=
  match files with
  | [] => prev
  | _ :: _ =>
      let maxAdditional := 4 - Z.of_nat (List.length captured) in
      let filesToProcess := slice0 files maxAdditional in
      let compressedImages := map compressImage filesToProcess in
      prev ++ compressedImages
  end.

(** [images.filter((_, i) => i !== index)]. *)
Fixpoint drop_index (from : Z) (index : Z) (images : list Image) : list Image :=
  match images with
  | [] => []
  | x :: rest =>
      if from =? index then drop_index (from + 1) index rest
      else x :: drop_index (from + 1) index rest
  end.

(** [removeAdditionalImage(index)]. *)
Definition removeAdditionalImage (index : Z) (images : list Image) : list Image :=
  drop_index 0 index images.

End Images.

End Form.

(** ** The PIN pad of the admin panel *)

Module Admin.

(** A button of the pad. *)
Inductive PadKey :=
| Digit (num : nat)
| Del.

(** The buttons the pad renders, without the blank cell. *)
Definition pad : list PadKey :=
  [Digit 1; Digit 2; Digit 3; Digit 4; Digit 5; Digit 6; Digit 7; Digit 8;
   Digit 9; Digit 0; Del].

(** [String(num)] for a digit. *)
Definition digit_text (num : nat) : string :=
  String (ascii_of_nat (48 + num)) EmptyString.

(** [p.slice(0, -1)] on a string. *)
Fixpoint drop_last (p : string) : string :=
  match p with
  | EmptyString => EmptyString
  | String c EmptyString => EmptyString
  | String c rest => String c (drop_last rest)
  end.

(** The click handler of a button: the new pin, and the pin sent for
    verification when this click completed it. *)
Definition press (pin : string) (k : PadKey) : string * option string :=
  match k with
  | Del => (drop_last pin, None)
  | Digit num =>
      if (String.length pin <? 8)%nat then
        let newPin := (pin ++ digit_text num)%string in
        (newPin, if (String.length newPin =? 8)%nat then Some newPin else None)
      else (pin, None)
  end.

(** The characters [0] to [9]. *)
Definition is_digit (c : ascii) : bool :=
  (48 <=? nat_of_ascii c)%nat && (nat_of_ascii c <=? 57)%nat.

Fixpoint all_digits (p : string) : bool :=
  match p with
  | EmptyString => true
  | String c rest => is_digit c && all_digits rest
  end.

(** What happens to the pin: a click, or a verification that was
    rejected, which clears it. *)
Inductive PinEvent :=
| Click (k : PadKey)
| Rejected.

Definition pin_step (pin : string) (e : PinEvent) : string :=
  match e with
  | Click k => fst (press pin k)
  | Rejected => EmptyString
  end.

(** A click on a button the pad has; a rejection. *)
Definition on_pad (e : PinEvent) : Prop :=
  match e with
  | Click k => In k pad
  | Rejected => True
  end.

End Admin.

(** ** Requests in flight *)

Module Async.

Import Geo Poll.
Local Open Scope R_scope.
Local Open Scope list_scope.

(** A callback that has sent its request and waits for the answer.  It
    holds the state of the render it was called from. *)
Inductive Pending :=
| CheckSent (snap : AppState)
| LoadSent (snap : AppState)
| SubmitSent (snap : AppState)
| CollectSent (snap : AppState).

(** The component and the callbacks that wait. *)
Record Session := mkSession {
  live : AppState;
  waiting : list Pending
}.

(** A component nothing is waiting on. *)
Definition idle (s : AppState) : Session := mkSession s [].

(** What happens to the component.  [k] is the place, among the callbacks
    that wait, of the one whose request is answered. *)
Inductive Event :=
| IntervalFires
| LoadStarts
| SubmitStarts
| CollectStarts
| Answered (k : nat) (response : FetchResult)
| Posted (k : nat) (newPostId : string)
| PostFailed (k : nat)
| Patched (k : nat)
| PatchFailed (k : nat)
| Located (loc : Location)
| RadiusSet (r : R)
| NotificationsToggled
| FavoriteToggled (postId : string).

Fixpoint remove_nth {A : Type} (k : nat) (l : list A) : list A :=
  match l, k with
  | [], _ => []
  | _ :: rest, O => rest
  | x :: rest, S k' => x :: remove_nth k' rest
  end.

(** One event.
    - The interval fires only while notifications are enabled; the check
      holds the state of that moment.
    - [fetchPosts] is called on mount and from the refresh button; the
      effect that calls it runs again when the location or the radius has
      changed, and the two handlers call it from their own closure after
      their request has succeeded.
    - An answer for a callback that does not wait changes nothing. *)
Definition happen (c : Session) (e : Event) : Session * list Notification :=
  match e with
  | IntervalFires =>
      if nearbyNotificationsEnabled (live c)
      then (mkSession (live c) (waiting c ++ [CheckSent (live c)]), [])
      else (c, [])
  | LoadStarts => (mkSession (live c) (waiting c ++ [LoadSent (live c)]), [])
  | SubmitStarts => (mkSession (live c) (waiting c ++ [SubmitSent (live c)]), [])
  | CollectStarts => (mkSession (live c) (waiting c ++ [CollectSent (live c)]), [])
  | Answered k response =>
      match nth_error (waiting c) k with
      | Some (CheckSent snap) =>
          (mkSession (fst (finish_check snap (live c) response))
                     (remove_nth k (waiting c)),
           snd (finish_check snap (live c) response))
      | Some (LoadSent snap) =>
          (mkSession (fst (finish_load snap (live c) response))
                     (remove_nth k (waiting c)),
           snd (finish_load snap (live c) response))
      | _ => (c, [])
      end
  | Posted k newPostId =>
      match nth_error (waiting c) k with
      | Some (SubmitSent snap) =>
          (mkSession (created (myPostIds snap) (live c) newPostId)
                     (remove_nth k (waiting c) ++ [LoadSent snap]), [])
      | _ => (c, [])
      end
  | PostFailed k =>
      match nth_error (waiting c) k with
      | Some (SubmitSent snap) => (mkSession (live c) (remove_nth k (waiting c)), [])
      | _ => (c, [])
      end
  | Patched k =>
      match nth_error (waiting c) k with
      | Some (CollectSent snap) =>
          (mkSession (live c) (remove_nth k (waiting c) ++ [LoadSent snap]), [])
      | _ => (c, [])
      end
  | PatchFailed k =>
      match nth_error (waiting c) k with
      | Some (CollectSent snap) => (mkSession (live c) (remove_nth k (waiting c)), [])
      | _ => (c, [])
      end
  | Located loc =>
      (mkSession (locate (live c) loc)
                 (waiting c ++ [LoadSent (locate (live c) loc)]), [])
  | RadiusSet r =>
      if Req_dec_T r (radiusKm (live c)) then (c, [])
      else (mkSession (set_radius (live c) r)
                      (waiting c ++ [LoadSent (set_radius (live c) r)]), [])
  | NotificationsToggled =>
      (mkSession (toggleNearbyNotifications (live c)) (waiting c), [])
  | FavoriteToggled postId =>
      (mkSession (toggleFavorite (live c) postId) (waiting c), [])
  end.

(** The events of a session, in the order they happen, with the
    notifications raised. *)
Fixpoint play (c : Session) (events : list Event) : Session * list Notification :=
  match events with
  | [] => (c, [])
  | e :: rest =>
      let (c1, n1) := happen c e in
      let (c2, n2) := play c1 rest in
      (c2, n1 ++ n2)
  end.

(** The callbacks that test or overwrite the owned array they hold: a
    check and a submission. *)
Definition is_job (p : Pending) : bool :=
  match p with
  | CheckSent _ | SubmitSent _ => true
  | LoadSent _ | CollectSent _ => false
  end.

Definition is_check (p : Pending) : bool :=
  match p with
  | CheckSent _ => true
  | _ => false
  end.

Definition held (p : Pending) : AppState :=
  match p with
  | CheckSent snap | LoadSent snap | SubmitSent snap | CollectSent snap => snap
  end.

(** A check or a submission waits. *)
Definition busy (c : Session) : bool := existsb is_job (waiting c).

(** The events that start a check or a submission. *)
Definition starts_job (e : Event) : bool :=
  match e with
  | IntervalFires | SubmitStarts => true
  | _ => false
  end.

(** Checks and submissions one at a time: none starts while another
    waits.  Loads, location fixes and toggles come as they like. *)
Fixpoint one_at_a_time (c : Session) (events : list Event) : Prop :=
  match events with
  | [] => True
  | e :: rest =>
      (starts_job e = true -> busy c = false) /\
      one_at_a_time (fst (happen c e)) rest
  end.

(** The checks and submissions that wait. *)
Definition jobs (c : Session) : list Pending := filter is_job (waiting c).

(** At most one check or submission waits, and the arrays it holds are
    those of the component: the owned array as it is now, and a seen array
    the component has not lost an id of. *)
Definition steady (c : Session) : Prop :=
  match jobs c with
  | [] => True
  | [p] =>
      myPostIds (held p) = myPostIds (live c) /\
      incl (lastSeenPostIds (held p)) (lastSeenPostIds (live c))
  | _ => False
  end.

(** The component has [i] in its seen array, and so has every check that
    waits in the array it holds. *)
Definition covered (i : string) (c : Session) : Prop :=
  In i (lastSeenPostIds (live c)) /\
  forall snap, In (CheckSent snap) (waiting c) -> In i (lastSeenPostIds snap).

(** The seen array that the checks to come test at least: the one held
    by the check that waits, or the live one when no check waits. *)
Definition fence (c : Session) : list string :=
  match filter is_check (waiting c) with
  | p :: _ => lastSeenPostIds (held p)
  | [] => lastSeenPostIds (live c)
  end.

(** Every feed that answers a request lists each id once. *)
Definition distinct_feed (e : Event) : Prop :=
  match e with
  | Answered _ (FetchOk feed) => NoDup (map id feed)
  | _ => True
  end.


End Async.

(** ** The distance in double precision *)

From Stdlib Require Floats.

Module Double.

Import Stdlib.Floats.Floats.
Local Open Scope float_scope.

(** [Math.PI]. *)
Definition PI : float := 0x1.921fb54442d18p+1.

Section Engine.

(** [Math.sin], [Math.cos] and [Math.atan2] of the engine that runs the
    page; the language leaves their last digits to the engine. *)
Variables sin cos : float -> float.
Variable atan2 : float -> float -> float.

(** [getDistance(lat1, lon1, lat2, lon2)] on doubles. *)
Definition getDistance (lat1 lon1 lat2 lon2 : float) : float :=
  let R0 := 6371 in
  let dLat := (lat2 - lat1) * PI / 180 in
  let dLon := (lon2 - lon1) * PI / 180 in
  let a :=
    sin (dLat / 2) * sin (dLat / 2) +
    cos (lat1 * PI / 180) * cos (lat2 * PI / 180) *
    sin (dLon / 2) * sin (dLon / 2) in
  let c := 2 * atan2 (sqrt a) (sqrt (1 - a)) in
  R0 * c.

End Engine.

(** An engine given by the values its functions take at the arguments
    that twelve degrees and a quarter turn come to; [atan2] keeps a NaN. *)
Definition table_sin (x : float) : float :=
  if x =? 0x1.acee9f37bebd5p-3 then 0x1.a9cd9ac4258f5p-3
  else if x =? -0x1.acee9f37bebd5p-3 then -0x1.a9cd9ac4258f5p-3
  else if x =? 0x1.921fb54442d18p+0 then 1
  else if x =? -0x1.921fb54442d18p+0 then -1
  else x.

Definition table_cos (x : float) : float :=
  if abs x =? 0x1.acee9f37bebd5p-3 then 0x1.f4cfc327a008p-1
  else 1.

Definition table_atan2 (y x : float) : float :=
  if is_nan x then nan else if is_nan y then nan else y.

End Double.

(** * Properties *)

Module NumFacts.

Import Num.
Local Open Scope R_scope.

Lemma leb_true (x y : R) : leb x y = true <-> x <= y.
Proof. unfold leb. destruct (Rle_dec x y); split; intros; try discriminate; tauto. Qed.

Lemma leb_false (x y : R) : leb x y = false <-> y < x.
Proof.
  unfold leb. destruct (Rle_dec x y); split; intros; try discriminate; try lra; reflexivity.
Qed.

Lemma leb_trans (x y z : R) : leb x y = true -> leb y z = true -> leb x z = true.
Proof. rewrite !leb_true. lra. Qed.

Lemma atan2_pos (y x : R) : 0 < x -> atan2 y x = atan (y / x).
Proof. intros H. unfold atan2. destruct (Rlt_dec 0 x); [reflexivity | contradiction]. Qed.

Lemma atan2_up (y : R) : 0 < y -> atan2 y 0 = PI / 2.
Proof.
  intros H. unfold atan2.
  destruct (Rlt_dec 0 0); [lra |].
  destruct (Rlt_dec 0 y); [reflexivity | contradiction].
Qed.

End NumFacts.

Module GeoFacts.

Import Geo.
Local Open Scope R_scope.

Lemma getDistance_formula (lat1 lon1 lat2 lon2 : R) :
  getDistance lat1 lon1 lat2 lon2 =
  2 * 6371 * Num.atan2 (sqrt (haversine_a lat1 lon1 lat2 lon2))
                       (sqrt (1 - haversine_a lat1 lon1 lat2 lon2)).
Proof.
  unfold getDistance, haversine_a, Rsqr. cbv zeta.
  match goal with
  | |- _ * (2 * Num.atan2 (sqrt ?x) _) = 2 * _ * Num.atan2 (sqrt ?y) _ =>
      replace y with x by ring
  end.
  ring.
Qed.

Lemma haversine_a_sym (lat1 lon1 lat2 lon2 : R) :
  haversine_a lat1 lon1 lat2 lon2 = haversine_a lat2 lon2 lat1 lon1.
Proof.
  unfold haversine_a.
  replace ((lat1 - lat2) * PI / 180 / 2) with (- ((lat2 - lat1) * PI / 180 / 2)) by lra.
  replace ((lon1 - lon2) * PI / 180 / 2) with (- ((lon2 - lon1) * PI / 180 / 2)) by lra.
  rewrite !sin_neg, <- !Rsqr_neg. ring.
Qed.

Lemma haversine_a_same (lat lon : R) : haversine_a lat lon lat lon = 0.
Proof.
  unfold haversine_a.
  replace ((lat - lat) * PI / 180 / 2) with 0 by lra.
  replace ((lon - lon) * PI / 180 / 2) with 0 by lra.
  rewrite sin_0. unfold Rsqr. ring.
Qed.

Lemma getDistance_same (lat lon : R) : getDistance lat lon lat lon = 0.
Proof.
  rewrite getDistance_formula, haversine_a_same.
  rewrite Rminus_0_r, sqrt_0, sqrt_1, NumFacts.atan2_pos by lra.
  replace (0 / 1) with 0 by lra. rewrite atan_0. ring.
Qed.

(** Over the real numbers the distance function is the haversine formula
    with radius 6371: it is twice the radius times
    [atan2 (sqrt a) (sqrt (1 - a))] for the quantity [a] of the formula, it
    is zero from a point to itself, and it is the same in both
    directions. *)
Theorem haversine_zero_and_symmetric (lat1 lon1 lat2 lon2 : R) :
  getDistance lat1 lon1 lat2 lon2 =
    2 * 6371 * Num.atan2 (sqrt (haversine_a lat1 lon1 lat2 lon2))
                         (sqrt (1 - haversine_a lat1 lon1 lat2 lon2)) /\
  getDistance lat1 lon1 lat1 lon1 = 0 /\
  getDistance lat1 lon1 lat2 lon2 = getDistance lat2 lon2 lat1 lon1.
Proof.
  split; [apply getDistance_formula |]. split; [apply getDistance_same |].
  rewrite !getDistance_formula.
  now rewrite (haversine_a_sym lat1 lon1 lat2 lon2).
Qed.

Lemma filter_radius_incl (lat lon r1 r2 : R) (items : list Post) :
  r1 <= r2 ->
  incl (filter (fun post => Num.leb (getDistance lat lon (latitude post) (longitude post)) r1) items)
       (filter (fun post => Num.leb (getDistance lat lon (latitude post) (longitude post)) r2) items).
Proof.
  intros Hr p Hp. apply filter_In in Hp. destruct Hp as [Hin Hd].
  apply filter_In. split; [assumption |].
  apply NumFacts.leb_trans with (y := r1); [assumption |].
  now apply NumFacts.leb_true.
Qed.

(** C6.  With the centre and the items fixed and [r1 <= r2], every item
    the radius filter keeps at [r1] it keeps at [r2]; the same holds for
    the view [postsInRadius]. *)
Theorem radius_filter_monotone
    (items : list Post) (center : Location) (r1 r2 : R) :
  r1 <= r2 ->
  incl (filterPostsByRadius items (Some center) r1)
       (filterPostsByRadius items (Some center) r2) /\
  incl (postsInRadius items (Some center) r1)
       (postsInRadius items (Some center) r2).
Proof.
  intros Hr. destruct center as [lat lon]. unfold filterPostsByRadius, postsInRadius.
  split; now apply filter_radius_incl.
Qed.

Lemma radius_filter_monotone_witness :
  (1 <= 2) /\
  incl (filterPostsByRadius [Sample.chair; Sample.desk] (Some Sample.here) 1)
       (filterPostsByRadius [Sample.chair; Sample.desk] (Some Sample.here) 2) /\
  incl (postsInRadius [Sample.chair; Sample.desk] (Some Sample.here) 1)
       (postsInRadius [Sample.chair; Sample.desk] (Some Sample.here) 2).
Proof.
  split; [lra | apply (radius_filter_monotone _ Sample.here 1 2); lra].
Defined.

(** The two sample places are half the globe apart. *)
Lemma getDistance_far : getDistance 0 0 0 180 = 6371 * PI.
Proof.
  rewrite getDistance_formula.
  assert (Ha : haversine_a 0 0 0 180 = 1).
  { unfold haversine_a.
    replace ((0 - 0) * PI / 180 / 2) with 0 by lra.
    replace ((180 - 0) * PI / 180 / 2) with (PI / 2) by lra.
    replace (0 * PI / 180) with 0 by lra.
    rewrite sin_0, sin_PI2, cos_0. unfold Rsqr. ring. }
  rewrite Ha. replace (1 - 1) with 0 by ring.
  rewrite sqrt_1, sqrt_0, NumFacts.atan2_up by lra. field.
Qed.

Lemma near_here : Num.leb (getDistance 0 0 0 0) 1 = true.
Proof. apply NumFacts.leb_true. rewrite getDistance_same. lra. Qed.

Lemma near_far_away : Num.leb (getDistance 0 180 0 180) 1 = true.
Proof. apply NumFacts.leb_true. rewrite getDistance_same. lra. Qed.

Lemma far_from_here : Num.leb (getDistance 0 0 0 180) 1 = false.
Proof.
  apply NumFacts.leb_false. rewrite getDistance_far.
  pose proof PI2_3_2. lra.
Qed.

(** C8.  Without a centre the radius filter returns its items as they are,
    whatever the radius; so does the view [postsInRadius], and with no
    category and no favourites filter the displayed list is the items. *)
Theorem no_center_no_filter
    (items : list Post) (radius : R) (favorites : list string) :
  filterPostsByRadius items None radius = items /\
  postsInRadius items None radius = items /\
  getDisplayPosts (postsInRadius (filterPostsByRadius items None radius) None radius)
                  None false favorites = items.
Proof. repeat split; reflexivity. Qed.

End GeoFacts.

Module PollFacts.

Import Geo Poll.
Local Open Scope R_scope.
Local Open Scope list_scope.

(** *** Arrays of ids *)

Lemma includes_In (l : list string) (x : string) : includes l x = true <-> In x l.
Proof.
  unfold includes. rewrite existsb_exists. split.
  - intros [y [Hy He]]. apply String.eqb_eq in He. now subst.
  - intros H. exists x. split; [assumption | apply String.eqb_refl].
Qed.

Lemma includes_not_In (l : list string) (x : string) : includes l x = false <-> ~ In x l.
Proof.
  rewrite <- includes_In. destruct (includes l x); split; intros; congruence.
Qed.

Lemma In_remove (l : list string) (i x : string) :
  In x (filter (fun y => negb (y =? i)) l) <-> In x l /\ x <> i.
Proof.
  rewrite filter_In. split; intros [H1 H2]; split; trivial.
  - intros ->. rewrite String.eqb_refl in H2. discriminate.
  - apply negb_true_iff. now apply String.eqb_neq.
Qed.

(** *** Committing a list of actions *)

Lemma commit_app (s : AppState) (l1 l2 : list Action) :
  commit s (l1 ++ l2) =
  (fst (commit (fst (commit s l1)) l2),
   snd (commit s l1) ++ snd (commit (fst (commit s l1)) l2)).
Proof.
  revert s. induction l1 as [| a l1 IH]; intros s; simpl.
  - now destruct (commit s l2).
  - destruct (apply s a) as [s1 n1]. rewrite IH.
    destruct (commit s1 l1) as [s2 n2]. simpl.
    now rewrite app_assoc.
Qed.

Lemma commit_log (s : AppState) (l : list Action) : snd (commit s l) = shown l.
Proof.
  revert s. induction l as [| a l IH]; intros s; simpl; [reflexivity |].
  destruct (apply s a) as [s1 n1] eqn:Ha. specialize (IH s1).
  destruct (commit s1 l) as [s2 n2]. simpl in *. subst n2.
  destruct a; simpl in Ha; inversion Ha; reflexivity.
Qed.

Lemma commit_seen (s : AppState) (l : list Action) :
  lastSeenPostIds (fst (commit s l)) = lastSeenPostIds s ++ marked l.
Proof.
  revert s. induction l as [| a l IH]; intros s; simpl.
  - now rewrite app_nil_r.
  - destruct (apply s a) as [s1 n1] eqn:Ha. specialize (IH s1).
    destruct (commit s1 l) as [s2 n2]. simpl in *. rewrite IH.
    destruct a; simpl in Ha; inversion Ha; subst; simpl; try reflexivity.
    now rewrite <- app_assoc.
Qed.

Lemma commit_mine (s : AppState) (l : list Action) (x : string) :
  In x (myPostIds (fst (commit s l))) <-> In x (myPostIds s) /\ ~ In x (released l).
Proof.
  revert s. induction l as [| a l IH]; intros s; simpl.
  - tauto.
  - destruct (apply s a) as [s1 n1] eqn:Ha. specialize (IH s1).
    destruct (commit s1 l) as [s2 n2]. simpl in *. rewrite IH.
    destruct a; simpl in Ha; inversion Ha; subst; simpl; try tauto.
    rewrite In_remove. intuition congruence.
Qed.

Lemma commit_mine_NoDup (s : AppState) (l : list Action) :
  NoDup (myPostIds s) -> NoDup (myPostIds (fst (commit s l))).
Proof.
  revert s. induction l as [| a l IH]; intros s H; simpl; [assumption |].
  destruct (apply s a) as [s1 n1] eqn:Ha. specialize (IH s1).
  destruct (commit s1 l) as [s2 n2]. simpl in *. apply IH.
  destruct a; simpl in Ha; inversion Ha; subst; simpl; try assumption.
  now apply NoDup_filter.
Qed.

Lemma commit_fixed (s : AppState) (l : list Action) :
  userLocation (fst (commit s l)) = userLocation s /\
  radiusKm (fst (commit s l)) = radiusKm s /\
  nearbyNotificationsEnabled (fst (commit s l)) = nearbyNotificationsEnabled s /\
  favorites (fst (commit s l)) = favorites s.
Proof.
  revert s. induction l as [| a l IH]; intros s; simpl; [tauto |].
  destruct (apply s a) as [s1 n1] eqn:Ha. specialize (IH s1).
  destruct (commit s1 l) as [s2 n2]. simpl in *.
  destruct a; simpl in Ha; inversion Ha; subst; simpl in *; exact IH.
Qed.

(** *** The effects *)

Lemma refilter_fixed (s : AppState) :
  posts (refilter_effect s) = posts s /\
  lastSeenPostIds (refilter_effect s) = lastSeenPostIds s /\
  myPostIds (refilter_effect s) = myPostIds s /\
  userLocation (refilter_effect s) = userLocation s /\
  nearbyNotificationsEnabled (refilter_effect s) = nearbyNotificationsEnabled s.
Proof.
  unfold refilter_effect.
  destruct (posts s) eqn:Hp; [tauto |].
  destruct (userLocation s) eqn:Hl; simpl; tauto.
Qed.

Lemma baseline_fixed (s : AppState) :
  posts (baseline_effect s) = posts s /\
  myPostIds (baseline_effect s) = myPostIds s /\
  userLocation (baseline_effect s) = userLocation s /\
  nearbyNotificationsEnabled (baseline_effect s) = nearbyNotificationsEnabled s.
Proof.
  unfold baseline_effect.
  destruct (posts s) eqn:Hp; [tauto |].
  destruct (lastSeenPostIds s) eqn:Hl; simpl; tauto.
Qed.

Lemma baseline_seen (s : AppState) :
  lastSeenPostIds (baseline_effect s) = baseline_ids (posts s) (lastSeenPostIds s).
Proof.
  unfold baseline_effect, baseline_ids.
  destruct (posts s) eqn:Hp; [reflexivity |].
  destruct (lastSeenPostIds s) eqn:Hl; simpl; [reflexivity | assumption].
Qed.

Lemma effects_fixed (s : AppState) :
  posts (effects s) = posts s /\
  myPostIds (effects s) = myPostIds s /\
  userLocation (effects s) = userLocation s /\
  nearbyNotificationsEnabled (effects s) = nearbyNotificationsEnabled s.
Proof.
  unfold effects.
  destruct (baseline_fixed (refilter_effect s)) as (-> & -> & -> & ->).
  destruct (refilter_fixed s) as (-> & _ & -> & -> & ->). tauto.
Qed.

Lemma effects_seen (s : AppState) :
  lastSeenPostIds (effects s) = baseline_ids (posts s) (lastSeenPostIds s).
Proof.
  unfold effects. rewrite baseline_seen.
  destruct (refilter_fixed s) as (-> & -> & _). reflexivity.
Qed.

Lemma effects_seen_mono (s : AppState) (i : string) :
  In i (lastSeenPostIds s) -> In i (lastSeenPostIds (effects s)).
Proof.
  rewrite effects_seen. unfold baseline_ids. destruct (posts s); [trivial |].
  destruct (lastSeenPostIds s); simpl; tauto.
Qed.

(** *** Reading the actions of [checkForUpdates] *)

Lemma marked_app (l1 l2 : list Action) : marked (l1 ++ l2) = marked l1 ++ marked l2.
Proof. apply flat_map_app. Qed.

Lemma released_app (l1 l2 : list Action) : released (l1 ++ l2) = released l1 ++ released l2.
Proof. apply flat_map_app. Qed.

Lemma shown_app (l1 l2 : list Action) : shown (l1 ++ l2) = shown l1 ++ shown l2.
Proof. apply flat_map_app. Qed.

Lemma subjects_app (k : Kind) (l1 l2 : list Notification) :
  subjects k (l1 ++ l2) = subjects k l1 ++ subjects k l2.
Proof. unfold subjects. now rewrite filter_app, map_app. Qed.

Lemma subjects_In (k : Kind) (log : list Notification) (i : string) :
  In i (subjects k log) <-> exists n, In n log /\ kind n = k /\ subject n = i.
Proof.
  unfold subjects. rewrite in_map_iff. split.
  - intros [n [Hs Hn]]. apply filter_In in Hn. destruct Hn as [Hn Hk].
    exists n. repeat split; trivial.
    destruct (kind n), k; simpl in Hk; congruence.
  - intros [n [Hn [Hk Hs]]]. exists n. split; [assumption |].
    apply filter_In. split; [assumption |]. subst k. now destruct (kind n).
Qed.

Section Bodies.

Variable snap : AppState.
Variable loc : Location.
Variable currentPosts : list Post.

Lemma nearby_body_cases (post : Post) :
  nearby_body snap loc post =
  if qualifies snap loc post
  then [ShowNotification (mkNote nearby (id post) (title post)); MarkSeen (id post)]
  else [].
Proof.
  unfold nearby_body, qualifies.
  destruct (includes (lastSeenPostIds snap) (id post)); [reflexivity |].
  destruct (includes (myPostIds snap) (id post)); reflexivity.
Qed.

Lemma nearby_reading (l : list Post) :
  shown (flat_map (nearby_body snap loc) l) =
    map (fun p => mkNote nearby (id p) (title p)) (filter (qualifies snap loc) l) /\
  marked (flat_map (nearby_body snap loc) l) = map id (filter (qualifies snap loc) l) /\
  released (flat_map (nearby_body snap loc) l) = [].
Proof.
  induction l as [| p l (IH1 & IH2 & IH3)]; simpl; [tauto |].
  rewrite shown_app, marked_app, released_app, IH1, IH2, IH3.
  rewrite nearby_body_cases. destruct (qualifies snap loc p); simpl; tauto.
Qed.

Lemma collected_body_cases (myPostId : string) :
  collected_body currentPosts myPostId =
  match observed currentPosts myPostId with
  | Some myPost =>
      [ShowNotification (mkNote collected myPostId (title myPost));
       ReleaseOwned myPostId]
  | None => []
  end.
Proof.
  unfold collected_body, observed.
  destruct (find _ currentPosts) as [q |]; [| reflexivity].
  destruct (status q =? "collected"); reflexivity.
Qed.

Lemma collected_reading (l : list string) :
  subjects collected (shown (flat_map (collected_body currentPosts) l)) =
    filter (was_collected currentPosts) l /\
  subjects nearby (shown (flat_map (collected_body currentPosts) l)) = [] /\
  released (flat_map (collected_body currentPosts) l) =
    filter (was_collected currentPosts) l /\
  marked (flat_map (collected_body currentPosts) l) = [].
Proof.
  induction l as [| i l (IH1 & IH2 & IH3 & IH4)]; simpl; [tauto |].
  rewrite shown_app, marked_app, released_app, !subjects_app, IH1, IH2, IH3, IH4.
  rewrite collected_body_cases. unfold was_collected.
  destruct (observed currentPosts i); simpl; tauto.
Qed.

End Bodies.

Lemma subjects_nearby_notes (s : AppState) (feed : list Post) :
  subjects nearby (nearby_notes s feed) =
  match userLocation s with
  | Some loc => map id (filter (qualifies s loc) feed)
  | None => []
  end /\
  subjects collected (nearby_notes s feed) = [].
Proof.
  unfold nearby_notes. destruct (userLocation s) as [loc |]; [| split; reflexivity].
  induction (filter (qualifies s loc) feed) as [| p l [IH1 IH2]]; [split; reflexivity |].
  unfold subjects in *. simpl. rewrite IH1, IH2. split; reflexivity.
Qed.

Lemma check_reading (s : AppState) (feed : list Post) :
  let acts := checkForUpdates s (FetchOk feed) in
  subjects nearby (shown acts) = marked acts /\
  subjects collected (shown acts) = released acts /\
  marked acts =
    match userLocation s with
    | Some loc => map id (filter (qualifies s loc) feed)
    | None => []
    end /\
  released acts =
    filter (was_collected feed) (myPostIds s) /\
  shown acts =
    nearby_notes s feed ++ shown (flat_map (collected_body feed) (myPostIds s)).
Proof.
  cbv zeta. unfold checkForUpdates.
  change (shown (GetPosts :: ?l)) with (shown l).
  change (marked (GetPosts :: ?l)) with (marked l).
  change (released (GetPosts :: ?l)) with (released l).
  rewrite !shown_app, !marked_app, !released_app, !subjects_app.
  destruct (collected_reading feed (myPostIds s)) as (C1 & C2 & C3 & C4).
  rewrite C1, C2, C3, C4.
  destruct (subjects_nearby_notes s feed) as [N1 N2].
  unfold nearby_notes in *.
  destruct (userLocation s) as [loc |]; simpl.
  - destruct (nearby_reading s loc feed) as (B1 & B2 & B3).
    rewrite B1, B2, B3, N1, N2. simpl. rewrite !app_nil_r. tauto.
  - rewrite !app_nil_r. tauto.
Qed.

(** *** One operation *)

Lemma check_posts (s : AppState) (feed : list Post) :
  posts (fst (commit s (checkForUpdates s (FetchOk feed)))) = feed.
Proof.
  unfold checkForUpdates. cbn [commit apply]. rewrite app_assoc, commit_app.
  destruct (commit s _) as [s1 n1]. reflexivity.
Qed.

Lemma finish_check_ok (snap live : AppState) (feed : list Post) :
  finish_check snap live (FetchOk feed) =
  (effects (fst (commit live (checkForUpdates snap (FetchOk feed)))),
   shown (checkForUpdates snap (FetchOk feed))).
Proof.
  unfold finish_check. rewrite <- commit_log with (s := live).
  now destruct (commit live (checkForUpdates snap (FetchOk feed))).
Qed.

Lemma finish_check_failed (snap live : AppState) :
  finish_check snap live FetchFailed = (live, []).
Proof. reflexivity. Qed.

Lemma poll_tick_ok (s : AppState) (feed : list Post) :
  nearbyNotificationsEnabled s = true ->
  poll_tick s (FetchOk feed) =
  (effects (fst (commit s (checkForUpdates s (FetchOk feed)))),
   shown (checkForUpdates s (FetchOk feed))).
Proof.
  intros He. unfold poll_tick. rewrite He. apply finish_check_ok.
Qed.

Lemma poll_tick_failed (s : AppState) : poll_tick s FetchFailed = (s, []).
Proof. unfold poll_tick. now destruct (nearbyNotificationsEnabled s). Qed.

Lemma poll_tick_disabled (s : AppState) (r : FetchResult) :
  nearbyNotificationsEnabled s = false -> poll_tick s r = (s, []).
Proof. intros He. unfold poll_tick. now rewrite He. Qed.

Lemma load_posts_ok (s : AppState) (data : list Post) :
  load_posts s (FetchOk data) =
  (effects (fst (commit s (fetchPosts s (FetchOk data)))), []).
Proof. reflexivity. Qed.

Lemma qualifies_unseen (s : AppState) (loc : Location) (p : Post) :
  qualifies s loc p = true ->
  ~ In (id p) (lastSeenPostIds s) /\ ~ In (id p) (myPostIds s) /\
  (getDistance (fst loc) (snd loc) (latitude p) (longitude p) <= nearbyRadius)%R /\
  status p = "active".
Proof.
  unfold qualifies. rewrite !andb_true_iff, !negb_true_iff.
  rewrite !includes_not_In, NumFacts.leb_true, String.eqb_eq. tauto.
Qed.

Lemma marked_unseen (s : AppState) (feed : list Post) (i : string) :
  In i (marked (checkForUpdates s (FetchOk feed))) ->
  ~ In i (lastSeenPostIds s) /\ ~ In i (myPostIds s).
Proof.
  destruct (check_reading s feed) as (_ & _ & -> & _).
  destruct (userLocation s) as [loc |]; [| contradiction].
  rewrite in_map_iff. intros [p [<- Hp]]. apply filter_In in Hp.
  destruct Hp as [_ Hq]. apply qualifies_unseen in Hq. tauto.
Qed.

Lemma step_seen (s : AppState) (o : Op) (i : string) :
  In i (lastSeenPostIds s) ->
  In i (lastSeenPostIds (fst (step s o))) /\
  ~ In i (subjects nearby (snd (step s o))).
Proof.
  intros Hi. destruct o as [r | r | loc | j | | r | j]; cbn [step fst snd];
    try (simpl; tauto).
  - destruct (nearbyNotificationsEnabled s) eqn:He.
    + destruct r as [feed |].
      * rewrite poll_tick_ok by assumption. cbn [fst snd]. split.
        -- apply effects_seen_mono. rewrite commit_seen. apply in_or_app. now left.
        -- destruct (check_reading s feed) as (-> & _).
           intros Hm. apply marked_unseen in Hm. tauto.
      * rewrite poll_tick_failed. simpl. tauto.
    + rewrite poll_tick_disabled by assumption. simpl. tauto.
  - destruct r as [data |]; simpl; [| tauto]. split; [| tauto].
    apply effects_seen_mono. simpl. exact Hi.
  - unfold locate. destruct (refilter_fixed
      (mkState (posts s) (filteredPosts s) (loading s) (Some loc) (radiusKm s)
               (myPostIds s) (lastSeenPostIds s) (nearbyNotificationsEnabled s)
               (favorites s))) as (_ & -> & _). simpl. tauto.
  - unfold created. destruct (j =? EmptyString); simpl; tauto.
  - unfold set_radius. destruct (refilter_fixed
      (mkState (posts s) (filteredPosts s) (loading s) (userLocation s) r
               (myPostIds s) (lastSeenPostIds s) (nearbyNotificationsEnabled s)
               (favorites s))) as (_ & -> & _). simpl. tauto.
Qed.

Lemma step_notified_seen (s : AppState) (o : Op) (i : string) :
  In i (subjects nearby (snd (step s o))) ->
  In i (lastSeenPostIds (fst (step s o))).
Proof.
  destruct o as [r | r | loc | j | | r | j]; cbn [step fst snd];
    try (simpl; tauto).
  - destruct (nearbyNotificationsEnabled s) eqn:He.
    + destruct r as [feed |].
      * rewrite poll_tick_ok by assumption. cbn [fst snd].
        destruct (check_reading s feed) as (-> & _). intros Hm.
        apply effects_seen_mono. rewrite commit_seen. apply in_or_app. now right.
      * rewrite poll_tick_failed. simpl. tauto.
    + rewrite poll_tick_disabled by assumption. simpl. tauto.
  - destruct r as [data |]; simpl; tauto.
Qed.

(** *** The owned array *)

Lemma count_occ_filter (f : string -> bool) (l : list string) (i : string) :
  count_occ string_dec (filter f l) i =
  if f i then count_occ string_dec l i else 0%nat.
Proof.
  induction l as [| x l IH]; simpl; [now destruct (f i) |].
  destruct (string_dec x i) as [-> | Hne].
  - destruct (f i) eqn:Hf; simpl; [| assumption].
    destruct (string_dec i i); [| contradiction]. now rewrite IH.
  - destruct (f x); simpl; [| assumption].
    destruct (string_dec x i); [contradiction | assumption].
Qed.

Lemma count_occ_remove (l : list string) (j i : string) :
  count_occ string_dec (filter (fun x => negb (x =? j)) l) i =
  if i =? j then 0%nat else count_occ string_dec l i.
Proof.
  rewrite count_occ_filter. now destruct (i =? j).
Qed.

Lemma commit_mine_count (s : AppState) (l : list Action) (i : string) :
  count_occ string_dec (myPostIds (fst (commit s l))) i =
  if includes (released l) i then 0%nat else count_occ string_dec (myPostIds s) i.
Proof.
  revert s. induction l as [| a l IH]; intros s; simpl; [reflexivity |].
  destruct (apply s a) as [s1 n1] eqn:Ha. specialize (IH s1).
  destruct (commit s1 l) as [s2 n2]. simpl in *. rewrite IH.
  destruct a; simpl in Ha; inversion Ha; subst; simpl; try reflexivity.
  unfold includes. simpl. rewrite count_occ_remove.
  destruct (i =? i0); simpl; [| reflexivity].
  now destruct (existsb (String.eqb i) (released l)).
Qed.


Lemma find_unique (feed : list Post) (p : Post) :
  NoDup (map id feed) -> In p feed ->
  find (fun q => id q =? id p) feed = Some p.
Proof.
  induction feed as [| q feed IH]; simpl; [contradiction |].
  intros Hnd [-> | Hin].
  - now rewrite String.eqb_refl.
  - inversion Hnd as [| ? ? Hq Hnd']; subst.
    destruct (id q =? id p) eqn:He.
    + apply String.eqb_eq in He. exfalso. apply Hq. rewrite He.
      now apply in_map.
    + now apply IH.
Qed.

Lemma released_owned (s : AppState) (feed : list Post) (i : string) :
  In i (released (checkForUpdates s (FetchOk feed))) <->
  In i (myPostIds s) /\ was_collected feed i = true.
Proof.
  destruct (check_reading s feed) as (_ & _ & _ & -> & _). apply filter_In.
Qed.

(** What one successful check does to the owned array and to the
    collected notifications of one id. *)
Lemma tick_owned_count (s : AppState) (feed : list Post) (i : string) :
  nearbyNotificationsEnabled s = true ->
  (count_occ string_dec (subjects collected (snd (poll_tick s (FetchOk feed)))) i +
   count_occ string_dec (myPostIds (fst (poll_tick s (FetchOk feed)))) i =
   count_occ string_dec (myPostIds s) i)%nat.
Proof.
  intros He. rewrite poll_tick_ok by assumption. cbn [fst snd].
  destruct (effects_fixed (fst (commit s (checkForUpdates s (FetchOk feed)))))
    as (_ & -> & _).
  rewrite commit_mine_count.
  destruct (check_reading s feed) as (_ & -> & _ & Hr & _). rewrite Hr.
  rewrite count_occ_filter.
  destruct (includes _ i) eqn:Hi.
  - apply includes_In, filter_In in Hi. destruct Hi as [_ ->]. lia.
  - apply includes_not_In in Hi. rewrite filter_In in Hi.
    destruct (was_collected feed i); [| lia].
    assert (Hn : ~ In i (myPostIds s)) by tauto.
    apply (count_occ_not_In string_dec) in Hn. lia.
Qed.

Lemma observed_Some (feed : list Post) (i : string) (p : Post) :
  observed feed i = Some p <->
  find (fun q => id q =? i) feed = Some p /\ status p = "collected".
Proof.
  unfold observed. destruct (find _ feed) as [q |]; [| split; [discriminate | intros [H _]; discriminate]].
  destruct (status q =? "collected") eqn:Hs.
  - apply String.eqb_eq in Hs. split.
    + intros H. inversion H; subst. tauto.
    + intros [H _]. exact H.
  - apply String.eqb_neq in Hs. split; [discriminate |].
    intros [H Hc]. inversion H; subst. contradiction.
Qed.

Lemma was_collected_observed (feed : list Post) (i : string) :
  was_collected feed i = true <-> exists p, observed feed i = Some p.
Proof.
  unfold was_collected. destruct (observed feed i) as [p |]; split.
  - intros _. now exists p.
  - reflexivity.
  - discriminate.
  - intros [p H]. discriminate.
Qed.

Lemma collected_note_In (feed : list Post) (l : list string) (i : string) (p : Post) :
  In i l -> observed feed i = Some p ->
  In (mkNote collected i (title p)) (shown (flat_map (collected_body feed) l)).
Proof.
  intros Hi Ho. induction l as [| j l IH]; simpl; [contradiction |].
  rewrite shown_app. apply in_or_app. destruct Hi as [-> | Hi].
  - left. rewrite collected_body_cases, Ho. simpl. now left.
  - right. now apply IH.
Qed.

Lemma tick_collected_note (s : AppState) (feed : list Post) (i : string) (p : Post) :
  nearbyNotificationsEnabled s = true ->
  In i (myPostIds s) -> observed feed i = Some p ->
  In (mkNote collected i (title p)) (snd (poll_tick s (FetchOk feed))).
Proof.
  intros He Hi Ho. rewrite poll_tick_ok by assumption. cbn [snd].
  destruct (check_reading s feed) as (_ & _ & _ & _ & ->).
  apply in_or_app. right. now apply collected_note_In.
Qed.

Lemma tick_owned_after (s : AppState) (r : FetchResult) (i : string) :
  In i (myPostIds (fst (poll_tick s r))) <->
  In i (myPostIds s) /\ ~ In i (subjects collected (snd (poll_tick s r))).
Proof.
  destruct (nearbyNotificationsEnabled s) eqn:He.
  - destruct r as [feed |].
    + rewrite poll_tick_ok by assumption. cbn [fst snd].
      destruct (effects_fixed (fst (commit s (checkForUpdates s (FetchOk feed)))))
        as (_ & -> & _).
      rewrite commit_mine.
      destruct (check_reading s feed) as (_ & -> & _). tauto.
    + rewrite poll_tick_failed. simpl. tauto.
  - rewrite poll_tick_disabled by assumption. simpl. tauto.
Qed.

Lemma tick_collected_subject (s : AppState) (r : FetchResult) (i : string) :
  In i (subjects collected (snd (poll_tick s r))) ->
  nearbyNotificationsEnabled s = true /\ In i (myPostIds s) /\
  exists feed p, r = FetchOk feed /\ observed feed i = Some p.
Proof.
  destruct (nearbyNotificationsEnabled s) eqn:He.
  - destruct r as [feed |].
    + rewrite poll_tick_ok by assumption. cbn [snd].
      destruct (check_reading s feed) as (_ & -> & _).
      rewrite released_owned, was_collected_observed.
      intros [Hi [p Hp]]. repeat split; trivial. now exists feed, p.
    + rewrite poll_tick_failed. simpl. tauto.
  - rewrite poll_tick_disabled by assumption. simpl. tauto.
Qed.

(** *** The first list of posts *)

Lemma tick_log (s : AppState) (feed : list Post) :
  nearbyNotificationsEnabled s = true ->
  snd (poll_tick s (FetchOk feed)) =
  nearby_notes s feed ++ shown (flat_map (collected_body feed) (myPostIds s)).
Proof.
  intros He. rewrite poll_tick_ok by assumption. cbn [snd].
  now destruct (check_reading s feed) as (_ & _ & _ & _ & ->).
Qed.

Lemma tick_nearby_subjects (s : AppState) (feed : list Post) :
  nearbyNotificationsEnabled s = true ->
  subjects nearby (snd (poll_tick s (FetchOk feed))) =
  match userLocation s with
  | Some loc => map id (filter (qualifies s loc) feed)
  | None => []
  end.
Proof.
  intros He. rewrite poll_tick_ok by assumption. cbn [snd].
  destruct (check_reading s feed) as (-> & _ & -> & _). reflexivity.
Qed.

Lemma tick_seen (s : AppState) (feed : list Post) :
  nearbyNotificationsEnabled s = true ->
  lastSeenPostIds (fst (poll_tick s (FetchOk feed))) =
  baseline_ids feed
    (lastSeenPostIds s ++ subjects nearby (snd (poll_tick s (FetchOk feed)))).
Proof.
  intros He. rewrite poll_tick_ok by assumption. cbn [fst snd].
  rewrite effects_seen, check_posts, commit_seen.
  now destruct (check_reading s feed) as (-> & _).
Qed.

Lemma load_seen (s : AppState) (data : list Post) :
  lastSeenPostIds (fst (load_posts s (FetchOk data))) =
  baseline_ids data (lastSeenPostIds s).
Proof.
  rewrite load_posts_ok. cbn [fst]. rewrite effects_seen. reflexivity.
Qed.

(** Evaluation of the nearby test on sample data. *)
Ltac eval_qualifies :=
  unfold qualifies; simpl; unfold nearbyRadius;
  rewrite ?GeoFacts.near_here, ?GeoFacts.far_from_here, ?GeoFacts.near_far_away;
  reflexivity.

(** C3, as the claim has it, fails.  The component mounts with empty
    registries, the load on mount fails, the device gets a location fix,
    and the first check of the interval fetches a chair at the device's
    position and a collected lamp.  That first successful non-empty fetch
    raises a nearby notification for the chair, and the seen array is left
    with the chair alone: the lamp was fetched and is not in it. *)
Lemma first_fetch_by_check_notifies :
  let session :=
    [Load FetchFailed; Locate Sample.here;
     Tick (FetchOk [Sample.chair; Sample.lamp])] in
  snd (run (initial [] [] [] true) session) = [mkNote nearby "p1" "Chair"] /\
  lastSeenPostIds (fst (run (initial [] [] [] true) session)) = ["p1"] /\
  ~ In (id Sample.lamp) (lastSeenPostIds (fst (run (initial [] [] [] true) session))).
Proof.
  cbv zeta.
  assert (Hc : qualifies Sample.fresh_located Sample.here Sample.chair = true)
    by eval_qualifies.
  assert (Hl : qualifies Sample.fresh_located Sample.here Sample.lamp = false)
    by eval_qualifies.
  assert (Hlog : snd (poll_tick Sample.fresh_located (FetchOk [Sample.chair; Sample.lamp]))
                 = [mkNote nearby "p1" "Chair"]).
  { rewrite tick_log by reflexivity. unfold nearby_notes.
    cbn [userLocation Sample.fresh_located filter myPostIds flat_map shown].
    rewrite Hc, Hl. reflexivity. }
  assert (Hseen : lastSeenPostIds (fst (poll_tick Sample.fresh_located
                                  (FetchOk [Sample.chair; Sample.lamp]))) = ["p1"]).
  { rewrite tick_seen by reflexivity. rewrite Hlog. reflexivity. }
  assert (Hrun : run (initial [] [] [] true)
                     [Load FetchFailed; Locate Sample.here;
                      Tick (FetchOk [Sample.chair; Sample.lamp])]
                 = (fst (poll_tick Sample.fresh_located (FetchOk [Sample.chair; Sample.lamp])),
                    snd (poll_tick Sample.fresh_located (FetchOk [Sample.chair; Sample.lamp])))).
  { cbn [run step].
    change (load_posts (initial [] [] [] true) FetchFailed)
      with (mkState [] [] false None 105%R [] [] true [], @nil Notification).
    cbv iota beta.
    change (locate (mkState [] [] false None 105%R [] [] true []) Sample.here)
      with (mkState [] [] false (Some Sample.here) 105%R [] [] true []).
    cbv iota beta.
    change (mkState [] [] false (Some Sample.here) 105%R [] [] true [])
      with Sample.fresh_located.
    destruct (poll_tick Sample.fresh_located (FetchOk [Sample.chair; Sample.lamp])).
    cbn [fst snd app]. now rewrite app_nil_r. }
  rewrite Hrun. cbn [fst snd]. rewrite Hseen, Hlog.
  repeat split. simpl. intros [H | []]. discriminate.
Qed.


(** *** A failed request *)

(** C4.  When the request fails, [fetchPosts] leaves the posts, the
    filtered posts and every registry as they were (it only clears the
    loading flag) and raises nothing; a check of the interval leaves the
    whole state as it was and raises nothing; either callback has sent one
    request and sends no other; and a schedule of checks that starts with a
    failed one goes on from the same state with the responses of the
    intervals that follow. *)
Theorem failed_refresh_changes_nothing (s : AppState) (rest : list FetchResult) :
  fst (load_posts s FetchFailed) =
    mkState (posts s) (filteredPosts s) false (userLocation s) (radiusKm s)
            (myPostIds s) (lastSeenPostIds s)
            (nearbyNotificationsEnabled s) (favorites s) /\
  snd (load_posts s FetchFailed) = [] /\
  poll_tick s FetchFailed = (s, []) /\
  requests (fetchPosts s FetchFailed) = 1%nat /\
  requests (checkForUpdates s FetchFailed) = 1%nat /\
  poll_ticks s (FetchFailed :: rest) = poll_ticks s rest.
Proof.
  repeat split; try reflexivity.
  - apply poll_tick_failed.
  - unfold poll_ticks. cbn [map run step]. rewrite poll_tick_failed.
    now destruct (run s (map Tick rest)).
Qed.

(** *** The collected check *)

(** C10.  Let a check succeed while notifications are on, with the ids of
    the feed distinct.  For every owned id whose post is in the feed with
    status collected, the check raises the collected notification,
    whatever the location is; and when there is no location fix the same
    check raises no nearby notification at all. *)
Theorem collected_check_ignores_location
    (s : AppState) (feed : list Post) (p : Post) :
  nearbyNotificationsEnabled s = true ->
  NoDup (map id feed) -> In p feed -> status p = "collected" ->
  In (id p) (myPostIds s) ->
  In (mkNote collected (id p) (title p)) (snd (poll_tick s (FetchOk feed))) /\
  (userLocation s = None ->
   subjects nearby (snd (poll_tick s (FetchOk feed))) = []).
Proof.
  intros He Hnd Hp Hs Hi. split.
  - apply tick_collected_note; trivial. apply observed_Some.
    split; [now apply find_unique | assumption].
  - intros Hl. rewrite tick_nearby_subjects by assumption. now rewrite Hl.
Qed.

Lemma collected_check_ignores_location_witness :
  (nearbyNotificationsEnabled Sample.owner_unlocated = true /\
   userLocation Sample.owner_unlocated = None /\
   NoDup (map id [Sample.chair; Sample.lamp]) /\
   In Sample.lamp [Sample.chair; Sample.lamp] /\
   status Sample.lamp = "collected" /\
   In (id Sample.lamp) (myPostIds Sample.owner_unlocated)) /\
  In (mkNote collected "p3" "Lamp")
     (snd (poll_tick Sample.owner_unlocated (FetchOk [Sample.chair; Sample.lamp]))).
Proof.
  assert (Hnd : NoDup (map id [Sample.chair; Sample.lamp])).
  { simpl. constructor; [simpl; intros [H | []]; discriminate |].
    constructor; [simpl; tauto | constructor]. }
  assert (Hin : In Sample.lamp [Sample.chair; Sample.lamp]) by (simpl; tauto).
  assert (Hm : In (id Sample.lamp) (myPostIds Sample.owner_unlocated))
    by (simpl; tauto).
  split; [repeat split; trivial |].
  exact (proj1 (collected_check_ignores_location
                  Sample.owner_unlocated [Sample.chair; Sample.lamp] Sample.lamp
                  eq_refl Hnd Hin eq_refl Hm)).
Defined.

(** *** The nearby check *)

Lemma locate_fixed (s : AppState) (loc : Location) :
  userLocation (locate s loc) = Some loc /\
  lastSeenPostIds (locate s loc) = lastSeenPostIds s /\
  myPostIds (locate s loc) = myPostIds s /\
  nearbyNotificationsEnabled (locate s loc) = nearbyNotificationsEnabled s.
Proof.
  unfold locate.
  destruct (refilter_fixed
      (mkState (posts s) (filteredPosts s) (loading s) (Some loc) (radiusKm s)
               (myPostIds s) (lastSeenPostIds s) (nearbyNotificationsEnabled s)
               (favorites s))) as (_ & -> & -> & -> & ->).
  simpl. tauto.
Qed.

Lemma same_id_same_post (feed : list Post) (p q : Post) :
  NoDup (map id feed) -> In p feed -> In q feed -> id q = id p -> q = p.
Proof.
  intros Hnd Hp Hq He.
  pose proof (find_unique feed p Hnd Hp) as H1.
  pose proof (find_unique feed q Hnd Hq) as H2.
  rewrite He in H2. congruence.
Qed.

Lemma check_marks_what_it_notifies (t : AppState) (r : FetchResult) :
  lastSeenPostIds (fst (commit t (checkForUpdates t r))) =
  lastSeenPostIds t ++ subjects nearby (snd (commit t (checkForUpdates t r))).
Proof.
  rewrite commit_seen, commit_log. destruct r as [feed |].
  - now destruct (check_reading t feed) as (-> & _).
  - reflexivity.
Qed.

Lemma check_notifies_unseen (t : AppState) (r : FetchResult) (i : string) :
  In i (subjects nearby (snd (commit t (checkForUpdates t r)))) ->
  ~ In i (lastSeenPostIds t).
Proof.
  rewrite commit_log. destruct r as [feed |]; [| contradiction].
  destruct (check_reading t feed) as (-> & _).
  intros H. now apply marked_unseen in H.
Qed.

(** C9.  In a check, before any effect runs, the ids appended to the seen
    array are exactly the subjects of the nearby notifications the check
    raised, and none of them was in the array.  So an active post that is
    neither owned nor seen and lies farther than the nearby radius is left
    unseen and unnotified by a check made after the baseline, and once the
    location has moved within the radius a later check that still finds the
    post raises the nearby notification for it. *)
Theorem far_item_is_not_marked_seen
    (s : AppState) (feed feed' : list Post) (p : Post) (loc loc' : Location) :
  nearbyNotificationsEnabled s = true ->
  userLocation s = Some loc ->
  lastSeenPostIds s <> [] ->
  NoDup (map id feed) -> In p feed -> In p feed' ->
  status p = "active" ->
  ~ In (id p) (myPostIds s) -> ~ In (id p) (lastSeenPostIds s) ->
  nearbyRadius < getDistance (fst loc) (snd loc) (latitude p) (longitude p) ->
  getDistance (fst loc') (snd loc') (latitude p) (longitude p) <= nearbyRadius ->
  (forall t r,
     lastSeenPostIds (fst (commit t (checkForUpdates t r))) =
     lastSeenPostIds t ++ subjects nearby (snd (commit t (checkForUpdates t r)))) /\
  (forall t r i,
     In i (subjects nearby (snd (commit t (checkForUpdates t r)))) ->
     ~ In i (lastSeenPostIds t)) /\
  ~ In (id p) (subjects nearby (snd (poll_tick s (FetchOk feed)))) /\
  ~ In (id p) (lastSeenPostIds (fst (poll_tick s (FetchOk feed)))) /\
  In (mkNote nearby (id p) (title p))
     (snd (poll_tick (locate (fst (poll_tick s (FetchOk feed))) loc') (FetchOk feed'))).
Proof.
  intros He Hloc Hbase Hnd Hp Hp' Hact Hmine Hseen Hfar Hnear.
  split; [exact check_marks_what_it_notifies |].
  split; [exact check_notifies_unseen |].
  assert (Hno : ~ In (id p) (subjects nearby (snd (poll_tick s (FetchOk feed))))).
  { rewrite tick_nearby_subjects by assumption. rewrite Hloc.
    rewrite in_map_iff. intros [q [Hid Hq]]. apply filter_In in Hq.
    destruct Hq as [Hq Hqual].
    assert (q = p) by now apply same_id_same_post with (feed := feed).
    subst q. apply qualifies_unseen in Hqual.
    destruct Hqual as (_ & _ & Hd & _). lra. }
  assert (Hs1 : ~ In (id p) (lastSeenPostIds (fst (poll_tick s (FetchOk feed))))).
  { rewrite tick_seen by assumption. unfold baseline_ids.
    destruct feed as [| q feed]; [contradiction |].
    destruct (lastSeenPostIds s ++
              subjects nearby (snd (poll_tick s (FetchOk (q :: feed)))))
      as [| x l] eqn:Hl.
    - apply app_eq_nil in Hl. tauto.
    - rewrite <- Hl. intros H. apply in_app_or in H. tauto. }
  split; [assumption |]. split; [assumption |].
  set (s1 := fst (poll_tick s (FetchOk feed))) in *.
  destruct (locate_fixed s1 loc') as (L1 & L2 & L3 & L4).
  assert (He1 : nearbyNotificationsEnabled s1 = true).
  { unfold s1. rewrite poll_tick_ok by assumption. cbn [fst].
    destruct (effects_fixed (fst (commit s (checkForUpdates s (FetchOk feed)))))
      as (_ & _ & _ & ->).
    now destruct (commit_fixed s (checkForUpdates s (FetchOk feed))) as (_ & _ & -> & _). }
  assert (Hm1 : ~ In (id p) (myPostIds s1)).
  { unfold s1. rewrite tick_owned_after. tauto. }
  rewrite tick_log by congruence.
  apply in_or_app. left. unfold nearby_notes. rewrite L1.
  apply in_map with (f := fun q => mkNote nearby (id q) (title q)).
  apply filter_In. split; [assumption |].
  unfold qualifies. rewrite L2, L3.
  rewrite !andb_true_iff, !negb_true_iff, !includes_not_In.
  rewrite NumFacts.leb_true, String.eqb_eq. tauto.
Qed.

Lemma far_item_is_not_marked_seen_witness :
  (userLocation Sample.settled = Some Sample.here /\
   lastSeenPostIds Sample.settled <> [] /\
   (nearbyRadius < getDistance 0 0 0 180)%R /\
   (getDistance 0 180 0 180 <= nearbyRadius)%R) /\
  ~ In "p2" (lastSeenPostIds (fst (poll_tick Sample.settled (FetchOk [Sample.desk])))) /\
  In (mkNote nearby "p2" "Desk")
     (snd (poll_tick
             (locate (fst (poll_tick Sample.settled (FetchOk [Sample.desk])))
                     Sample.far_away)
             (FetchOk [Sample.desk]))).
Proof.
  assert (Hfar : (nearbyRadius < getDistance 0 0 0 180)%R).
  { rewrite GeoFacts.getDistance_far. unfold nearbyRadius.
    pose proof PI2_3_2. lra. }
  assert (Hnear : (getDistance 0 180 0 180 <= nearbyRadius)%R).
  { rewrite GeoFacts.getDistance_same. unfold nearbyRadius. lra. }
  assert (Hbase : lastSeenPostIds Sample.settled <> []) by discriminate.
  assert (Hnd : NoDup (map id [Sample.desk])).
  { simpl. constructor; [simpl; tauto | constructor]. }
  assert (Hin : In Sample.desk [Sample.desk]) by (simpl; tauto).
  assert (Hmine : ~ In (id Sample.desk) (myPostIds Sample.settled)) by (simpl; tauto).
  assert (Hseen : ~ In (id Sample.desk) (lastSeenPostIds Sample.settled)).
  { simpl. intros [H | []]. discriminate. }
  split; [repeat split; trivial |].
  destruct (far_item_is_not_marked_seen
              Sample.settled [Sample.desk] [Sample.desk] Sample.desk
              Sample.here Sample.far_away
              eq_refl eq_refl Hbase Hnd Hin Hin eq_refl Hmine Hseen Hfar Hnear)
    as (_ & _ & _ & H1 & H2).
  split; [exact H1 | exact H2].
Defined.

End PollFacts.

Module RegistryFacts.

Import Registry.

Lemma setItem_same (ls : Storage) (key value : string) :
  setItem ls key value key = Some value.
Proof. unfold setItem. now rewrite String.eqb_refl. Qed.

Lemma removeItem_same (ls : Storage) (key : string) :
  removeItem ls key key = None.
Proof. unfold removeItem. now rewrite String.eqb_refl. Qed.

(** C5, as the claim has it, fails for the flag: a stored text that is
    neither of the two texts the application writes loads as [false], not
    as the default [true]. *)
Lemma malformed_flag_loads_false :
  let ls := setItem (fun _ => None) "ucycle_nearby_notifications" "yes" in
  ls "ucycle_nearby_notifications" = Some "yes" /\
  "yes" <> flag_text true /\ "yes" <> flag_text false /\
  init_nearbyNotificationsEnabled ls = false /\
  init_nearbyNotificationsEnabled ls <> true.
Proof.
  cbv zeta. repeat split; try reflexivity; discriminate.
Qed.

(** C5, as the code has it.  A registry whose key is missing loads as the
    empty array, or as [true] for the flag.  A stored flag loads as [true]
    exactly when its text is [true].  A stored array text is empty and
    loads as the empty array, or is handed to [JSON.parse]: the value it
    returns is the registry, and when it throws the initializer throws. *)
Theorem registry_load
    (JSON_parse : string -> option Json) (ls : Storage) (text : string) :
  init_myPostIds JSON_parse (removeItem ls "ucycle_my_posts") = Returned (JArray []) /\
  init_lastSeenPostIds JSON_parse (removeItem ls "ucycle_seen_posts") = Returned (JArray []) /\
  init_favorites JSON_parse (removeItem ls "ucycle_favorites") = Returned (JArray []) /\
  init_nearbyNotificationsEnabled (removeItem ls "ucycle_nearby_notifications") = true /\
  init_nearbyNotificationsEnabled (setItem ls "ucycle_nearby_notifications" text)
    = (text =? "true") /\
  init_myPostIds JSON_parse (setItem ls "ucycle_my_posts" text)
    = parse_or_empty JSON_parse (Some text) /\
  init_lastSeenPostIds JSON_parse (setItem ls "ucycle_seen_posts" text)
    = parse_or_empty JSON_parse (Some text) /\
  init_favorites JSON_parse (setItem ls "ucycle_favorites" text)
    = parse_or_empty JSON_parse (Some text) /\
  parse_or_empty JSON_parse (Some EmptyString) = Returned (JArray []) /\
  (parse_or_empty JSON_parse (Some text) = Threw <->
   text <> EmptyString /\ JSON_parse text = None) /\
  (forall v, parse_or_empty JSON_parse (Some text) = Returned v <->
   (text = EmptyString /\ v = JArray []) \/
   (text <> EmptyString /\ JSON_parse text = Some v)).
Proof.
  unfold init_myPostIds, init_lastSeenPostIds, init_favorites,
    init_nearbyNotificationsEnabled.
  cbv zeta. rewrite !removeItem_same, !setItem_same.
  repeat match goal with |- _ /\ _ => split end; try reflexivity.
  - unfold parse_or_empty. destruct (text =? EmptyString) eqn:Ht.
    + apply String.eqb_eq in Ht. split; [discriminate | tauto].
    + apply String.eqb_neq in Ht.
      destruct (JSON_parse text); split; try discriminate; try tauto.
      intros [_ H]. discriminate.
  - intros v. unfold parse_or_empty. destruct (text =? EmptyString) eqn:Ht.
    + apply String.eqb_eq in Ht. split.
      * intros H. inversion H. now left.
      * intros [[_ ->] | [Hn _]]; [reflexivity | contradiction].
    + apply String.eqb_neq in Ht. destruct (JSON_parse text) as [w |]; split.
      * intros H. inversion H; subst. now right.
      * intros [[He _] | [_ Hp]]; [contradiction | now inversion Hp].
      * discriminate.
      * intros [[He _] | [_ Hp]]; [contradiction | discriminate].
Qed.

End RegistryFacts.

(** * Further properties of the engine *)

Module SessionFacts.

Import Geo Poll Saved PollFacts.
Local Open Scope R_scope.
Local Open Scope list_scope.

Lemma NoDup_map_filter (f : Post -> bool) (feed : list Post) :
  NoDup (map id feed) -> NoDup (map id (filter f feed)).
Proof.
  induction feed as [| p feed IH]; simpl; [trivial |].
  intros H. inversion H as [| ? ? Hp Hnd]; subst.
  destruct (f p); simpl; [| now apply IH].
  constructor; [| now apply IH].
  intros Hin. apply Hp. apply in_map_iff in Hin.
  destruct Hin as [q [Hq Hf]]. apply filter_In in Hf.
  rewrite <- Hq. apply in_map. tauto.
Qed.

Lemma NoDup_app_disjoint (l1 l2 : list string) :
  NoDup l1 -> NoDup l2 -> (forall x, In x l1 -> ~ In x l2) -> NoDup (l1 ++ l2).
Proof.
  induction l1 as [| a l1 IH]; simpl; intros H1 H2 Hd; [assumption |].
  inversion H1 as [| ? ? Ha Hl1]; subst. constructor.
  - intros Hin. apply in_app_or in Hin. destruct Hin as [Hin | Hin];
      [contradiction | apply (Hd a); tauto].
  - apply IH; trivial. intros x Hx. apply Hd. now right.
Qed.

Lemma collected_notes_kind (feed : list Post) (l : list string) (n : Notification) :
  In n (shown (flat_map (collected_body feed) l)) -> kind n = collected.
Proof.
  induction l as [| i l IH]; simpl; [contradiction |].
  rewrite shown_app. intros H. apply in_app_or in H. destruct H as [H | H]; [| auto].
  rewrite collected_body_cases in H.
  destruct (observed feed i); simpl in H; [| contradiction].
  destruct H as [<- | []]. reflexivity.
Qed.

(** X2.  With notifications on and a location fix, a successful check
    raises a nearby notification exactly for the fetched posts that are
    active, within the nearby radius of the location, not in the seen array
    and not in the owned array; the notification carries the id and the
    title of the post. *)
Theorem nearby_raised_iff
    (s : AppState) (feed : list Post) (loc : Location) (n : Notification) :
  nearbyNotificationsEnabled s = true ->
  userLocation s = Some loc ->
  (In n (snd (poll_tick s (FetchOk feed))) /\ kind n = nearby) <->
  (exists p, In p feed /\ n = mkNote nearby (id p) (title p) /\
             status p = "active" /\
             getDistance (fst loc) (snd loc) (latitude p) (longitude p) <= nearbyRadius /\
             ~ In (id p) (lastSeenPostIds s) /\ ~ In (id p) (myPostIds s)).
Proof.
  intros He Hl. rewrite tick_log by assumption. unfold nearby_notes. rewrite Hl.
  split.
  - intros [Hin Hk]. apply in_app_or in Hin. destruct Hin as [Hin | Hin].
    + apply in_map_iff in Hin. destruct Hin as [p [<- Hp]].
      apply filter_In in Hp. destruct Hp as [Hp Hq].
      apply qualifies_unseen in Hq. exists p. tauto.
    + apply collected_notes_kind in Hin. congruence.
  - intros [p (Hp & -> & Hs & Hd & Hseen & Hmine)]. split; [| reflexivity].
    apply in_or_app. left.
    apply in_map with (f := fun q => mkNote nearby (id q) (title q)).
    apply filter_In. split; [assumption |]. unfold qualifies.
    rewrite !andb_true_iff, !negb_true_iff, !includes_not_In.
    rewrite NumFacts.leb_true, String.eqb_eq. tauto.
Qed.

Lemma nearby_raised_iff_witness :
  (nearbyNotificationsEnabled Sample.settled = true /\
   userLocation Sample.settled = Some Sample.here) /\
  In (mkNote nearby "p1" "Chair")
     (snd (poll_tick Sample.settled (FetchOk [Sample.chair; Sample.desk]))).
Proof.
  split; [split; reflexivity |].
  apply (proj2 (nearby_raised_iff Sample.settled [Sample.chair; Sample.desk]
                  Sample.here (mkNote nearby "p1" "Chair") eq_refl eq_refl)).
  exists Sample.chair. simpl. repeat split; try tauto.
  - rewrite GeoFacts.getDistance_same. unfold nearbyRadius. lra.
  - intros [H | []]. discriminate.
Defined.

Lemma effects_kept (s : AppState) :
  radiusKm (effects s) = radiusKm s /\ favorites (effects s) = favorites s.
Proof.
  unfold effects, baseline_effect, refilter_effect.
  destruct (posts s) eqn:Hp; [now rewrite Hp |].
  destruct (userLocation s) eqn:Hl; simpl; rewrite Hp;
    destruct (lastSeenPostIds s); simpl; tauto.
Qed.

(** X3.  A check of the interval, whatever the outcome of its request,
    leaves the location, the radius, the notifications flag and the
    favourites as they were; every id the owned array holds afterwards it
    held before, and every id the seen array held before it still holds. *)
Theorem check_touches_only_its_registries (s : AppState) (r : FetchResult) :
  userLocation (fst (poll_tick s r)) = userLocation s /\
  radiusKm (fst (poll_tick s r)) = radiusKm s /\
  nearbyNotificationsEnabled (fst (poll_tick s r)) = nearbyNotificationsEnabled s /\
  favorites (fst (poll_tick s r)) = favorites s /\
  incl (myPostIds (fst (poll_tick s r))) (myPostIds s) /\
  incl (lastSeenPostIds s) (lastSeenPostIds (fst (poll_tick s r))).
Proof.
  assert (Hm : incl (myPostIds (fst (poll_tick s r))) (myPostIds s)).
  { intros i Hi. apply tick_owned_after in Hi. tauto. }
  assert (Hs : incl (lastSeenPostIds s) (lastSeenPostIds (fst (poll_tick s r)))).
  { intros i Hi. exact (proj1 (step_seen s (Tick r) i Hi)). }
  destruct (nearbyNotificationsEnabled s) eqn:He.
  - destruct r as [feed |].
    + revert Hm Hs. rewrite poll_tick_ok by assumption. cbn [fst]. intros Hm Hs.
      destruct (effects_fixed (fst (commit s (checkForUpdates s (FetchOk feed)))))
        as (_ & _ & -> & ->).
      destruct (effects_kept (fst (commit s (checkForUpdates s (FetchOk feed)))))
        as (-> & ->).
      destruct (commit_fixed s (checkForUpdates s (FetchOk feed)))
        as (-> & -> & -> & ->).
      tauto.
    + revert Hm Hs. rewrite poll_tick_failed. cbn [fst]. tauto.
  - revert Hm Hs. rewrite poll_tick_disabled by assumption. cbn [fst]. tauto.
Qed.

(** X4.  The two effects settle in one pass: running them on a state they
    have already run on changes nothing. *)
Theorem effects_settle (s : AppState) : effects (effects s) = effects s.
Proof.
  destruct s as [ps fp ld loc rad mine seen en favs].
  unfold effects, refilter_effect, baseline_effect.
  destruct ps as [| p ps]; [reflexivity |].
  destruct loc as [loc |]; destruct seen as [| x seen]; reflexivity.
Qed.

End SessionFacts.

Module SavedFacts.

Import Geo Poll Registry Saved PollFacts.
Local Open Scope R_scope.
Local Open Scope list_scope.

Lemma includes_app (l1 l2 : list string) (x : string) :
  includes (l1 ++ l2) x = includes l1 x || includes l2 x.
Proof. unfold includes. apply existsb_app. Qed.

Lemma includes_remove (l : list string) (p x : string) :
  includes (filter (fun i => negb (i =? p)) l) x = includes l x && negb (x =? p).
Proof.
  induction l as [| a l IH]; simpl; [reflexivity |].
  destruct (a =? p) eqn:Hap; simpl.
  - rewrite IH. apply String.eqb_eq in Hap. subst a.
    destruct (x =? p); simpl; [now rewrite andb_false_r | reflexivity].
  - rewrite IH. destruct (x =? a) eqn:Hxa; simpl; [| reflexivity].
    apply String.eqb_eq in Hxa. subst a. now rewrite Hap.
Qed.

(** X5.  Toggling a favourite flips whether that id is a favourite and
    leaves every other id as it was; toggling the same id twice gives every
    id the answer it had at the start. *)
Theorem toggle_favorite_flips (s : AppState) (postId x : string) :
  isFavorite (toggleFavorite s postId) x =
    (if x =? postId then negb (isFavorite s x) else isFavorite s x) /\
  isFavorite (toggleFavorite (toggleFavorite s postId) postId) x = isFavorite s x.
Proof.
  assert (H : forall t p y,
             isFavorite (toggleFavorite t p) y =
             (if y =? p then negb (isFavorite t y) else isFavorite t y)).
  { intros t p y. unfold isFavorite, toggleFavorite. cbn [favorites].
    destruct (includes (favorites t) p) eqn:Hp.
    - rewrite includes_remove. destruct (y =? p) eqn:Hy; simpl.
      + apply String.eqb_eq in Hy. subst y. rewrite Hp. reflexivity.
      + apply andb_true_r.
    - rewrite includes_app. unfold includes at 2. simpl. rewrite orb_false_r.
      destruct (y =? p) eqn:Hy; simpl.
      + apply String.eqb_eq in Hy. subst y. rewrite Hp. reflexivity.
      + apply orb_false_r. }
  split; [apply H |]. rewrite !H.
  destruct (x =? postId); [apply negb_involutive | reflexivity].
Qed.

Lemma NoDup_remove (l : list string) (p : string) :
  NoDup l -> NoDup (filter (fun i => negb (i =? p)) l).
Proof. apply NoDup_filter. Qed.

(** X6.  When the favourites hold each id once, they still do after a
    toggle, and the favourites left by toggling an id twice are the
    original ones up to their order. *)
Theorem toggle_favorite_keeps_set (s : AppState) (postId : string) :
  NoDup (favorites s) ->
  NoDup (favorites (toggleFavorite s postId)) /\
  (forall x, In x (favorites (toggleFavorite (toggleFavorite s postId) postId)) <->
             In x (favorites s)) /\
  NoDup (favorites (toggleFavorite (toggleFavorite s postId) postId)) /\
  List.length (favorites (toggleFavorite (toggleFavorite s postId) postId)) =
    List.length (favorites s).
Proof.
  assert (Hnd : forall t p, NoDup (favorites t) -> NoDup (favorites (toggleFavorite t p))).
  { intros t p Ht. unfold toggleFavorite. cbn [favorites].
    destruct (includes (favorites t) p) eqn:Hp.
    - now apply NoDup_remove.
    - apply includes_not_In in Hp. apply SessionFacts.NoDup_app_disjoint; trivial.
      + constructor; [simpl; tauto | constructor].
      + intros y Hy [<- | []]. contradiction. }
  intros Hs.
  assert (Hin : forall x, In x (favorites (toggleFavorite (toggleFavorite s postId) postId))
                          <-> In x (favorites s)).
  { intros x. rewrite <- !includes_In.
    pose proof (proj2 (toggle_favorite_flips s postId x)) as H.
    unfold isFavorite in H. now rewrite H. }
  assert (H2 : NoDup (favorites (toggleFavorite (toggleFavorite s postId) postId)))
    by now apply Hnd, Hnd.
  repeat split; trivial; try apply Hin; try now apply Hnd.
  apply Nat.le_antisymm; apply NoDup_incl_length; trivial; intros x Hx; now apply Hin.
Qed.

Lemma toggle_favorite_keeps_set_witness :
  NoDup (favorites (mkState [] [] false None 105 [] [] true ["p1"; "p2"])) /\
  NoDup (favorites (toggleFavorite
                      (mkState [] [] false None 105 [] [] true ["p1"; "p2"]) "p1")).
Proof.
  assert (H : NoDup (favorites (mkState [] [] false None 105 [] [] true ["p1"; "p2"]))).
  { simpl. constructor; [simpl; intros [H | []]; discriminate |].
    constructor; [simpl; tauto | constructor]. }
  split; [exact H |].
  exact (proj1 (toggle_favorite_keeps_set _ "p1" H)).
Defined.

(** X7.  When the loaded posts list each id once, the count of favourites
    among them is at most the number of favourites kept and at most the
    number of posts. *)
Theorem favorites_count_bounded (s : AppState) :
  NoDup (map id (posts s)) ->
  (favoritesCount s <= List.length (favorites s))%nat /\
  (favoritesCount s <= List.length (posts s))%nat.
Proof.
  intros Hnd. unfold favoritesCount. split; [| apply filter_length_le].
  rewrite <- (length_map id).
  apply NoDup_incl_length; [now apply SessionFacts.NoDup_map_filter |].
  intros i Hi. apply in_map_iff in Hi. destruct Hi as [p [<- Hp]].
  apply filter_In in Hp. now apply includes_In.
Qed.

Lemma favorites_count_bounded_witness :
  NoDup (map id (posts (mkState [Sample.chair; Sample.lamp] [] false None 105
                                [] [] true ["p3"; "p9"]))) /\
  (favoritesCount (mkState [Sample.chair; Sample.lamp] [] false None 105
                           [] [] true ["p3"; "p9"]) <= 2)%nat.
Proof.
  assert (H : NoDup (map id (posts (mkState [Sample.chair; Sample.lamp] [] false None 105
                                            [] [] true ["p3"; "p9"])))).
  { simpl. constructor; [simpl; intros [H | []]; discriminate |].
    constructor; [simpl; tauto | constructor]. }
  split; [exact H |].
  exact (proj1 (favorites_count_bounded _ H)).
Defined.

(** X8.  After the notifications flag is toggled, the text written to
    storage loads back as the new value of the flag, which is the negation
    of the old one; that text is the only thing written, under the key of
    the flag, every other key reading as before; and toggling
    twice brings the flag and its stored text back to where one toggle
    from the other value leaves them. *)
Theorem toggled_flag_reloads (s : AppState) (ls : Storage) (key : string) :
  init_nearbyNotificationsEnabled (snd (toggle_stored s ls)) =
    nearbyNotificationsEnabled (fst (toggle_stored s ls)) /\
  nearbyNotificationsEnabled (fst (toggle_stored s ls)) =
    negb (nearbyNotificationsEnabled s) /\
  snd (toggle_stored s ls) key =
    (if key =? "ucycle_nearby_notifications"
     then Some (flag_text (negb (nearbyNotificationsEnabled s)))
     else ls key) /\
  init_nearbyNotificationsEnabled
    (snd (toggle_stored (fst (toggle_stored s ls)) (snd (toggle_stored s ls)))) =
    nearbyNotificationsEnabled s.
Proof.
  unfold toggle_stored, init_nearbyNotificationsEnabled, toggleNearbyNotifications.
  cbn [fst snd nearbyNotificationsEnabled]. rewrite !RegistryFacts.setItem_same.
  repeat split.
  - now destruct (nearbyNotificationsEnabled s).
  - now destruct (nearbyNotificationsEnabled s).
Qed.

(** X9.  A device within 50 km of Penrith is within 300 km of it: whoever
    is in Western Sydney is in the Sydney metropolitan region.  Without a
    location fix a device is in neither. *)
Theorem western_sydney_is_in_metro (userLocation : option Location) :
  isInWesternSydney userLocation = true ->
  isInSydneyMetro userLocation = true /\
  isInWesternSydney None = false /\ isInSydneyMetro None = false.
Proof.
  intros H. repeat split. destruct userLocation as [[lat lon] |]; [| discriminate].
  unfold isInWesternSydney, isInSydneyMetro in *.
  apply NumFacts.leb_true in H. apply NumFacts.leb_true. lra.
Qed.

Lemma western_sydney_is_in_metro_witness :
  isInWesternSydney (Some (penrithLat, penrithLng)) = true /\
  isInSydneyMetro (Some (penrithLat, penrithLng)) = true.
Proof.
  assert (H : isInWesternSydney (Some (penrithLat, penrithLng)) = true).
  { unfold isInWesternSydney. apply NumFacts.leb_true.
    rewrite GeoFacts.getDistance_same. lra. }
  split; [exact H |].
  exact (proj1 (western_sydney_is_in_metro _ H)).
Defined.

End SavedFacts.

(** * Properties of the cards, the gallery, the camera and the forms *)

Module CardFacts.

Import Card.
Local Open Scope Z_scope.

(** X10.  The label of a post card is [Expired] when the expiry time has
    been reached, the less-than-an-hour label when less than an hour is
    left, and otherwise a number of whole hours that is at least one, never
    more than the time left and less than one hour short of it. *)
Theorem time_left_label (expires now : Z) :
  (expires <= now /\ timeLeft expires now = "Expired") \/
  (now < expires < now + 3600000 /\ timeLeft expires now = "< 1 hour left") \/
  (exists hours,
     1 <= hours /\
     hours * 3600000 <= expires - now < (hours + 1) * 3600000 /\
     timeLeft expires now = (decimal hours ++ "h left")%string).
Proof.
  unfold timeLeft. cbv zeta. change (1000 * 60 * 60) with 3600000.
  destruct (expires - now <=? 0) eqn:Hd.
  - left. apply Z.leb_le in Hd. split; [lia | reflexivity].
  - right. apply Z.leb_gt in Hd.
    pose proof (Z.div_mod (expires - now) 3600000 ltac:(lia)) as Hdm.
    pose proof (Z.mod_pos_bound (expires - now) 3600000 ltac:(lia)) as Hm.
    destruct ((expires - now) / 3600000 <? 1) eqn:Hh.
    + left. apply Z.ltb_lt in Hh. split; [| reflexivity]. nia.
    + right. apply Z.ltb_ge in Hh. exists ((expires - now) / 3600000).
      repeat split; trivial; nia.
Qed.

Lemma split_no_comma (s : string) :
  has_comma s = false -> split_comma s = [s].
Proof.
  induction s as [| c s IH]; simpl; [reflexivity |].
  destruct (Ascii.eqb c ","); simpl; [discriminate |].
  intros H. now rewrite IH.
Qed.

Lemma split_after (p r : string) :
  has_comma p = false ->
  split_comma (p ++ String "," r) = p :: split_comma r.
Proof.
  induction p as [| c p IH]; simpl; [reflexivity |].
  destruct (Ascii.eqb c ","); simpl; [discriminate |].
  intros H. now rewrite IH.
Qed.

Lemma has_comma_app (p r : string) :
  has_comma (p ++ r) = has_comma p || has_comma r.
Proof.
  induction p as [| c p IH]; simpl; [reflexivity |].
  rewrite IH. now rewrite orb_assoc.
Qed.

(** X11.  Turning a comma-free, non-empty base64 body into an image source
    and stripping it again, as the forms do before they send an image,
    gives the body back, for the primary image and for an additional one;
    and making a source of a source changes nothing. *)
Theorem image_source_round_trip (body : string) :
  has_comma body = false -> body <> EmptyString ->
  strip_primary (imageSrc body) = body /\
  strip_additional (imageSrc body) = Some body /\
  imageSrc (imageSrc body) = imageSrc body.
Proof.
  intros Hc He. unfold imageSrc.
  destruct (String.prefix "data:" body) eqn:Hp.
  - unfold strip_primary, strip_additional.
    rewrite Hc, Hp, split_no_comma by assumption. simpl. tauto.
  - change ("data:image/jpeg;base64," ++ body)%string
      with ("data:image/jpeg;base64" ++ String "," body)%string.
    unfold strip_primary, strip_additional.
    rewrite has_comma_app, split_after, split_no_comma by (assumption || reflexivity).
    cbn [nth_error]. apply String.eqb_neq in He. rewrite He.
    repeat split.
Qed.

Lemma image_source_round_trip_witness :
  (has_comma "QUJD" = false /\ "QUJD" <> EmptyString) /\
  strip_primary (imageSrc "QUJD") = "QUJD".
Proof.
  split; [split; [reflexivity | discriminate] |].
  exact (proj1 (image_source_round_trip "QUJD" eq_refl ltac:(discriminate))).
Defined.

End CardFacts.

Module GalleryFacts.

Import Gallery.
Local Open Scope R_scope.

Lemma gtb_true (x y : R) : gtb x y = true <-> y < x.
Proof. unfold gtb. destruct (Rlt_dec y x); split; intros; try discriminate; tauto. Qed.

Lemma ltb_true (x y : R) : ltb x y = true <-> x < y.
Proof. unfold ltb. destruct (Rlt_dec x y); split; intros; try discriminate; tauto. Qed.

Lemma next_in_range (n i : Z) : (0 <= i < n)%Z -> (0 <= next_image n i < n)%Z.
Proof. intros H. unfold next_image. destruct (Z.ltb_spec i (n - 1)); lia. Qed.

Lemma prev_in_range (n i : Z) : (0 <= i < n)%Z -> (0 <= prev_image n i < n)%Z.
Proof. intros H. unfold prev_image. destruct (Z.gtb_spec i 0); lia. Qed.

(** X12.  For an index inside a gallery, the next and the previous index
    are inside it, each step undoes the other, so the images form a cycle,
    and whatever the swipe the touch handler leaves the index inside the
    gallery. *)
Theorem gallery_index_cycles (imagesCount i : Z) (diff : R) :
  (0 <= i < imagesCount)%Z ->
  (0 <= next_image imagesCount i < imagesCount)%Z /\
  (0 <= prev_image imagesCount i < imagesCount)%Z /\
  prev_image imagesCount (next_image imagesCount i) = i /\
  next_image imagesCount (prev_image imagesCount i) = i /\
  (0 <= handleGalleryTouchEnd diff imagesCount i < imagesCount)%Z.
Proof.
  intros H. split; [now apply next_in_range |]. split; [now apply prev_in_range |].
  split; [| split].
  - unfold next_image, prev_image.
    destruct (Z.ltb_spec i (imagesCount - 1)).
    + destruct (Z.gtb_spec (i + 1) 0); lia.
    + destruct (Z.gtb_spec 0 0); lia.
  - unfold next_image, prev_image.
    destruct (Z.gtb_spec i 0).
    + destruct (Z.ltb_spec (i - 1) (imagesCount - 1)); lia.
    + destruct (Z.ltb_spec (imagesCount - 1) (imagesCount - 1)); lia.
  - unfold handleGalleryTouchEnd.
    destruct (imagesCount <=? 1)%Z; [assumption |]. cbv zeta.
    destruct (gtb (Rabs diff) 50); [| assumption].
    destruct (gtb diff 0); [now apply next_in_range | now apply prev_in_range].
Qed.

Lemma gallery_index_cycles_witness :
  (0 <= 2 < 3)%Z /\ next_image 3 2 = 0%Z /\ prev_image 3 (next_image 3 2) = 2%Z.
Proof.
  split; [lia |]. split; [reflexivity |].
  exact (proj1 (proj2 (proj2 (gallery_index_cycles 3 2 0 ltac:(lia))))).
Defined.

(** X13.  When a touch on the fullscreen viewer ends, the drag offset is
    back at zero and the index is still inside the images.  A swipe of
    more than 100 down with less than 50 sideways closes the viewer and
    keeps the index; any other touch leaves the viewer as open or closed as
    it was. *)
Theorem viewer_touch_end (diffX diffY : R) (count : Z) (v : Viewer) :
  (0 <= fullscreenIndex v < count)%Z ->
  fullscreenSwipeY (handleFullscreenTouchEnd diffX diffY count v) = 0 /\
  (0 <= fullscreenIndex (handleFullscreenTouchEnd diffX diffY count v) < count)%Z /\
  ((100 < diffY /\ Rabs diffX < 50 /\
    showFullscreenImage (handleFullscreenTouchEnd diffX diffY count v) = false /\
    fullscreenIndex (handleFullscreenTouchEnd diffX diffY count v) = fullscreenIndex v) \/
   (~ (100 < diffY /\ Rabs diffX < 50) /\
    showFullscreenImage (handleFullscreenTouchEnd diffX diffY count v) =
      showFullscreenImage v)).
Proof.
  intros H. unfold handleFullscreenTouchEnd.
  destruct (gtb diffY 100 && ltb (Rabs diffX) 50) eqn:Hc.
  - apply andb_true_iff in Hc. destruct Hc as [H1 H2].
    apply gtb_true in H1. apply ltb_true in H2. cbn. split; [reflexivity |].
    split; [assumption |]. left. tauto.
  - cbn. split; [reflexivity |]. split.
    + destruct (gtb (Rabs diffX) 50 && (count >? 1)%Z); [| assumption].
      destruct (gtb diffX 0); [now apply next_in_range | now apply prev_in_range].
    + right. split; [| reflexivity]. intros [H1 H2].
      apply gtb_true in H1. apply ltb_true in H2. rewrite H1, H2 in Hc. discriminate.
Qed.

Lemma viewer_touch_end_witness :
  (0 <= fullscreenIndex (mkViewer true 40 1) < 3)%Z /\
  fullscreenSwipeY (handleFullscreenTouchEnd 0 0 3 (mkViewer true 40 1)) = 0.
Proof.
  split; [simpl; lia |].
  exact (proj1 (viewer_touch_end 0 0 3 (mkViewer true 40 1) ltac:(simpl; lia))).
Defined.

(** X14.  The opacity of the fullscreen viewer is between 0.3 and 1 for
    every drag offset, and dragging further down never makes the viewer
    more opaque. *)
Theorem opacity_bounded (y1 y2 : R) :
  y1 <= y2 ->
  0.3 <= opacity y1 <= 1 /\ opacity y2 <= opacity y1.
Proof.
  intros H. unfold opacity, gtb, Rmax.
  destruct (Rlt_dec 0 y1); destruct (Rlt_dec 0 y2);
    repeat match goal with |- context [Rle_dec ?a ?b] => destruct (Rle_dec a b) end;
    lra.
Qed.

Lemma opacity_bounded_witness :
  (150 <= 600) /\ opacity 600 <= opacity 150.
Proof.
  split; [lra |]. exact (proj2 (opacity_bounded 150 600 ltac:(lra))).
Defined.

End GalleryFacts.

Module CameraFacts.

Import Camera.
Local Open Scope R_scope.

(** X15.  When the largest zoom is at least 1, the zoom the camera is set
    to lies between 1 and the largest zoom whatever zoom was asked for, a
    zoom asked for inside that range is kept, and clamping twice is
    clamping once. *)
Theorem zoom_is_clamped (newZoom maxZoom : R) :
  1 <= maxZoom ->
  1 <= clampedZoom newZoom maxZoom <= maxZoom /\
  clampedZoom (clampedZoom newZoom maxZoom) maxZoom = clampedZoom newZoom maxZoom /\
  (clampedZoom newZoom maxZoom = newZoom <-> 1 <= newZoom <= maxZoom).
Proof.
  intros H.
  assert (Hb : forall z, 1 <= clampedZoom z maxZoom <= maxZoom).
  { intros z. unfold clampedZoom, Rmin, Rmax.
    destruct (Rle_dec z 1); destruct (Rle_dec _ maxZoom); lra. }
  assert (Hid : forall z, 1 <= z <= maxZoom -> clampedZoom z maxZoom = z).
  { intros z Hz. unfold clampedZoom, Rmin, Rmax.
    destruct (Rle_dec z 1); destruct (Rle_dec _ maxZoom); lra. }
  split; [apply Hb |]. split; [apply Hid, Hb |].
  split; [| apply Hid]. intros He. rewrite <- He. apply Hb.
Qed.

Lemma zoom_is_clamped_witness :
  (1 <= 5) /\ 1 <= clampedZoom 9 5 <= 5.
Proof.
  split; [lra |]. exact (proj1 (zoom_is_clamped 9 5 ltac:(lra))).
Defined.

(** X16.  For a frame of non-negative size and any zoom, the part of the
    frame a capture draws lies inside the frame, has the same margin on
    the left as on the right and on the top as on the bottom, and has the
    proportions of the frame; at a zoom above 1 its sides are those of the
    frame divided by the zoom. *)
Theorem capture_crop_is_centred (videoWidth videoHeight cameraZoom : R) :
  0 <= videoWidth -> 0 <= videoHeight ->
  let r := captured videoWidth videoHeight cameraZoom in
  0 <= rx r /\ 0 <= rw r /\ rx r + rw r <= videoWidth /\
  0 <= ry r /\ 0 <= rh r /\ ry r + rh r <= videoHeight /\
  rx r = videoWidth - (rx r + rw r) /\
  ry r = videoHeight - (ry r + rh r) /\
  rw r * videoHeight = rh r * videoWidth /\
  (1 < cameraZoom -> rw r * cameraZoom = videoWidth /\ rh r * cameraZoom = videoHeight).
Proof.
  intros Hw Hh. unfold captured.
  destruct (Gallery.gtb cameraZoom 1) eqn:Hz; cbv zeta; cbn [rx ry rw rh].
  - apply GalleryFacts.gtb_true in Hz.
    assert (Hqw : videoWidth / cameraZoom * cameraZoom = videoWidth) by (field; lra).
    assert (Hqh : videoHeight / cameraZoom * cameraZoom = videoHeight) by (field; lra).
    set (qw := videoWidth / cameraZoom) in *.
    set (qh := videoHeight / cameraZoom) in *.
    assert (0 <= qw) by nra. assert (0 <= qh) by nra.
    assert (qw <= videoWidth) by nra. assert (qh <= videoHeight) by nra.
    repeat split; try lra; try nra.
  - assert (Hz' : ~ 1 < cameraZoom).
    { intros H. apply GalleryFacts.gtb_true in H. congruence. }
    repeat split; try lra; try nra; contradiction.
Qed.

Lemma capture_crop_is_centred_witness :
  (0 <= 1920 /\ 0 <= 1080) /\ 0 <= rx (captured 1920 1080 2).
Proof.
  split; [lra |].
  exact (proj1 (capture_crop_is_centred 1920 1080 2 ltac:(lra) ltac:(lra))).
Defined.

(** X17.  For an image of positive width and non-negative height, the size
    it is drawn at before compression is never wider than the limit, never
    larger than the image in either direction, and has the proportions of
    the image. *)
Theorem compression_never_enlarges (width height maxWidth : R) :
  0 < width -> 0 <= height -> 0 <= maxWidth ->
  fst (scaled width height maxWidth) <= maxWidth /\
  fst (scaled width height maxWidth) <= width /\
  0 <= snd (scaled width height maxWidth) <= height /\
  snd (scaled width height maxWidth) * width = height * fst (scaled width height maxWidth).
Proof.
  intros Hw Hh Hm. unfold scaled.
  destruct (Gallery.gtb width maxWidth) eqn:Hg; cbn [fst snd].
  - apply GalleryFacts.gtb_true in Hg.
    assert (Hq : height * maxWidth / width * width = height * maxWidth) by (field; lra).
    set (q := height * maxWidth / width) in *.
    repeat split; try lra; nra.
  - assert (Hg' : ~ maxWidth < width).
    { intros H. apply GalleryFacts.gtb_true in H. congruence. }
    repeat split; lra.
Qed.

Lemma compression_never_enlarges_witness :
  (0 < 2400 /\ 0 <= 1800 /\ 0 <= 1200) /\ fst (scaled 2400 1800 1200) <= 1200.
Proof.
  split; [lra |].
  exact (proj1 (compression_never_enlarges 2400 1800 1200
                  ltac:(lra) ltac:(lra) ltac:(lra))).
Defined.

End CameraFacts.

Module FormFacts.

Import Form.
Local Open Scope Z_scope.

Section Images.

Variables File Image : Type.
Variable compressImage : File -> Image.

Lemma slice0_room (files : list File) (used : nat) :
  (used <= 4)%nat ->
  slice0 files (4 - Z.of_nat used) = firstn (4 - used) files.
Proof.
  intros H. unfold slice0. cbv zeta.
  destruct (Z.ltb_spec (4 - Z.of_nat used) 0); [lia |].
  destruct (Z.min_spec (4 - Z.of_nat used) (Z.of_nat (List.length files)))
    as [[Hlt ->] | [Hle ->]].
  - f_equal. lia.
  - rewrite Nat2Z.id, firstn_all. symmetry. apply firstn_all2. lia.
Qed.

Lemma drop_index_spec (images : list Image) (from index : Z) :
  drop_index Image from index images =
  if (from <=? index) && (index <? from + Z.of_nat (List.length images))
  then (firstn (Z.to_nat (index - from)) images ++
        skipn (S (Z.to_nat (index - from))) images)%list
  else images.
Proof.
  revert from. induction images as [| x images IH]; intros from.
  - simpl. destruct ((from <=? index) && (index <? from + 0)); [| reflexivity].
    now rewrite firstn_nil.
  - cbn [drop_index]. rewrite IH. cbn [List.length].
    destruct (Z.eqb_spec from index) as [-> | Hne].
    + replace (index - index) with 0 by lia. cbn [Z.to_nat firstn skipn app].
      destruct (Z.leb_spec index index); [| lia].
      destruct (Z.ltb_spec index (index + Z.of_nat (S (List.length images)))); [| lia].
      cbn [andb].
      destruct (Z.leb_spec (index + 1) index); [lia | reflexivity].
    + destruct (Z.leb_spec (from + 1) index);
        destruct (Z.leb_spec from index); try lia; cbn [andb]; [| reflexivity].
      replace (from + 1 + Z.of_nat (List.length images))
        with (from + Z.of_nat (S (List.length images))) by lia.
      destruct (index <? from + Z.of_nat (S (List.length images))); [| reflexivity].
      replace (Z.to_nat (index - from)) with (S (Z.to_nat (index - (from + 1)))) by lia.
      reflexivity.
Qed.

End Images.

(** X18.  Let the handler have captured at most four additional images
    when the files were picked, and let the form hold no more images than
    that when the compression is done.  Then picking files appends, to the
    images the form holds, the compressed images of as many of the first
    files as fitted under four when they were picked, in their order, and
    the form holds at most four additional images afterwards. *)
Theorem additional_images_capped
    (File Image : Type) (compressImage : File -> Image)
    (captured prev : list Image) (files : list File) :
  (List.length captured <= 4)%nat ->
  (List.length prev <= List.length captured)%nat ->
  handleAdditionalImages File Image compressImage captured prev files =
    (prev ++ map compressImage (firstn (4 - List.length captured) files))%list /\
  (List.length (handleAdditionalImages File Image compressImage captured prev files)
   <= 4)%nat.
Proof.
  intros Hc Hp.
  assert (He : handleAdditionalImages File Image compressImage captured prev files =
               (prev ++ map compressImage (firstn (4 - List.length captured) files))%list).
  { unfold handleAdditionalImages. destruct files as [| f files].
    - rewrite firstn_nil. simpl. now rewrite app_nil_r.
    - cbv zeta. now rewrite slice0_room. }
  split; [exact He |]. rewrite He, length_app, length_map.
  pose proof (firstn_le_length (4 - List.length captured) files) as H1.
  assert (H2 : (List.length (firstn (4 - List.length captured) files)
                <= 4 - List.length captured)%nat).
  { rewrite length_firstn. apply Nat.le_min_l. }
  lia.
Qed.

Lemma additional_images_capped_witness :
  ((List.length [10%nat; 20%nat; 30%nat] <= 4)%nat /\
   (List.length [10%nat; 20%nat] <= List.length [10%nat; 20%nat; 30%nat])%nat) /\
  handleAdditionalImages nat nat S [10%nat; 20%nat; 30%nat] [10%nat; 20%nat]
    [1%nat; 2%nat; 3%nat] = [10%nat; 20%nat; 2%nat].
Proof.
  split; [split; simpl; lia |].
  exact (proj1 (additional_images_capped nat nat S [10%nat; 20%nat; 30%nat]
                  [10%nat; 20%nat] [1%nat; 2%nat; 3%nat]
                  ltac:(simpl; lia) ltac:(simpl; lia))).
Defined.

(** X19.  Removing the additional image at an index inside the list gives
    the images before it followed by the images after it; at any other
    index, negative or past the end, the list is left as it is. *)
Theorem remove_image_at_index (Image : Type) (index : Z) (images : list Image) :
  removeAdditionalImage Image index images =
  if (0 <=? index) && (index <? Z.of_nat (List.length images))
  then (firstn (Z.to_nat index) images ++ skipn (S (Z.to_nat index)) images)%list
  else images.
Proof.
  unfold removeAdditionalImage. rewrite drop_index_spec.
  now rewrite Z.sub_0_r, Z.add_0_l.
Qed.

End FormFacts.

Module AdminFacts.

Import Admin.

Lemma length_append (p q : string) :
  String.length (p ++ q) = String.length p + String.length q.
Proof. induction p as [| c p IH]; simpl; [reflexivity | now rewrite IH]. Qed.

Lemma all_digits_append (p q : string) :
  all_digits (p ++ q) = all_digits p && all_digits q.
Proof.
  induction p as [| c p IH]; simpl; [reflexivity |].
  now rewrite IH, andb_assoc.
Qed.

Lemma drop_last_length (p : string) : String.length (drop_last p) <= String.length p.
Proof.
  induction p as [| c p IH]; simpl; [lia |].
  destruct p; simpl in *; lia.
Qed.

Lemma drop_last_digits (p : string) : all_digits p = true -> all_digits (drop_last p) = true.
Proof.
  induction p as [| c p IH]; simpl; [trivial |].
  intros H. apply andb_true_iff in H. destruct H as [Hc Hp].
  destruct p; [reflexivity |]. cbn [all_digits]. rewrite Hc. now apply IH.
Qed.

Lemma pad_keys (k : PadKey) :
  In k pad -> k = Del \/ exists num, k = Digit num /\ num <= 9.
Proof.
  unfold pad. simpl. intros H.
  repeat (destruct H as [<- | H]; [first [now left | right; eexists; split; [reflexivity | lia]] |]).
  contradiction.
Qed.

Lemma digit_text_digit (num : nat) : num <= 9 -> all_digits (digit_text num) = true.
Proof.
  intros H. do 10 (destruct num as [| num]; [reflexivity |]). lia.
Qed.

Lemma press_valid (pin : string) (k : PadKey) :
  In k pad -> String.length pin <= 8 -> all_digits pin = true ->
  String.length (fst (press pin k)) <= 8 /\ all_digits (fst (press pin k)) = true.
Proof.
  intros Hk Hl Hd. destruct (pad_keys k Hk) as [-> | [num [-> Hn]]]; cbn [press fst].
  - split; [pose proof (drop_last_length pin); lia | now apply drop_last_digits].
  - destruct (Nat.ltb_spec (String.length pin) 8); cbn [fst]; [| tauto].
    rewrite length_append, all_digits_append, Hd, digit_text_digit by assumption.
    simpl. split; [lia | reflexivity].
Qed.

(** X20.  Starting from the empty pin, after any clicks on the buttons of
    the pad and any rejected verifications, the pin has at most eight
    characters and all of them are digits.  A click sends a pin for
    verification only when it is a digit typed on a pin of seven
    characters, and what it sends is the new pin, of eight characters. *)
Theorem pin_stays_valid (events : list PinEvent) :
  Forall on_pad events ->
  String.length (fold_left pin_step events EmptyString) <= 8 /\
  all_digits (fold_left pin_step events EmptyString) = true /\
  (forall pin k sent,
     snd (press pin k) = Some sent ->
     k <> Del /\ String.length pin = 7 /\
     sent = fst (press pin k) /\ String.length sent = 8).
Proof.
  intros H.
  assert (Hinv : forall pin, String.length pin <= 8 -> all_digits pin = true ->
                 String.length (fold_left pin_step events pin) <= 8 /\
                 all_digits (fold_left pin_step events pin) = true).
  { induction H as [| e events He Hev IH]; intros pin Hl Hd; simpl; [tauto |].
    apply IH; destruct e as [k |]; simpl; try lia; try reflexivity;
      now apply press_valid. }
  destruct (Hinv EmptyString) as [H1 H2]; [simpl; lia | reflexivity |].
  split; [exact H1 |]. split; [exact H2 |].
  intros pin k sent Hs. destruct k as [num |]; cbn [press snd fst] in *; [| discriminate].
  destruct (Nat.ltb_spec (String.length pin) 8); cbn [snd fst] in *; [| discriminate].
  destruct (Nat.eqb_spec (String.length (pin ++ digit_text num)) 8) as [He |];
    [| discriminate].
  inversion Hs; subst sent. rewrite length_append in He. simpl in He.
  repeat split; try discriminate; trivial; try lia.
  rewrite length_append. simpl. lia.
Qed.

Lemma pin_stays_valid_witness :
  Forall on_pad [Click (Digit 4); Click Del; Rejected; Click (Digit 0); Click (Digit 9)] /\
  String.length
    (fold_left pin_step
       [Click (Digit 4); Click Del; Rejected; Click (Digit 0); Click (Digit 9)]
       EmptyString) <= 8.
Proof.
  assert (H : Forall on_pad
                [Click (Digit 4); Click Del; Rejected; Click (Digit 0); Click (Digit 9)]).
  { repeat constructor; simpl; tauto. }
  split; [exact H |]. exact (proj1 (pin_stays_valid _ H)).
Defined.

End AdminFacts.

Module DisplayFacts.

Import Geo Poll.
Local Open Scope R_scope.
Local Open Scope list_scope.

Lemma filter_fuse (f g : Post -> bool) (l : list Post) :
  filter g (filter f l) = filter (fun p => f p && g p) l.
Proof.
  induction l as [| p l IH]; simpl; [reflexivity |].
  destruct (f p); simpl; [| assumption].
  destruct (g p); now rewrite IH.
Qed.

(** X21.  The displayed list is the posts that pass the radius test, the
    category test and the favourites test together, in the order of the
    filtered posts: a test that is switched off (no location, no category
    selected, favourites-only off) passes every post. *)
Theorem display_is_one_filter
    (filteredPosts : list Post) (userLocation : option Location) (radiusKm : R)
    (selectedCategory : option string) (showFavoritesOnly : bool)
    (favorites : list string) :
  getDisplayPosts (postsInRadius filteredPosts userLocation radiusKm)
                  selectedCategory showFavoritesOnly favorites =
  filter (fun post =>
            match userLocation with
            | Some (lat, lon) =>
                Num.leb (getDistance lat lon (latitude post) (longitude post)) radiusKm
            | None => true
            end &&
            match selectedCategory with
            | Some c => if c =? EmptyString then true else category post =? c
            | None => true
            end &&
            (if showFavoritesOnly then includes favorites (id post) else true))
         filteredPosts.
Proof.
  assert (Hall : forall l : list Post, filter (fun _ => true) l = l).
  { induction l as [| p l IH]; simpl; [reflexivity | now rewrite IH]. }
  assert (Hext : forall (f g : Post -> bool) l,
             (forall p, f p = g p) -> filter f l = filter g l).
  { intros f g l H. apply filter_ext. exact H. }
  unfold getDisplayPosts, postsInRadius. cbv zeta.
  assert (Hr : match userLocation with
               | Some (lat, lon) =>
                   filter (fun post =>
                     Num.leb (getDistance lat lon (latitude post) (longitude post)) radiusKm)
                     filteredPosts
               | None => filteredPosts
               end =
               filter (fun post =>
                 match userLocation with
                 | Some (lat, lon) =>
                     Num.leb (getDistance lat lon (latitude post) (longitude post)) radiusKm
                 | None => true
                 end) filteredPosts).
  { destruct userLocation as [[lat lon] |]; [reflexivity | now rewrite Hall]. }
  rewrite Hr. clear Hr.
  set (inR := fun post : Post =>
                match userLocation with
                | Some (lat, lon) =>
                    Num.leb (getDistance lat lon (latitude post) (longitude post)) radiusKm
                | None => true
                end).
  set (inC := fun post : Post =>
                match selectedCategory with
                | Some c => if c =? EmptyString then true else category post =? c
                | None => true
                end).
  assert (Hc : match selectedCategory with
               | Some c => if c =? EmptyString then filter inR filteredPosts
                           else filter (fun post => category post =? c)
                                       (filter inR filteredPosts)
               | None => filter inR filteredPosts
               end = filter (fun p => inR p && inC p) filteredPosts).
  { unfold inC. destruct selectedCategory as [c |].
    - destruct (c =? EmptyString).
      + apply Hext. intros p. now rewrite andb_true_r.
      + apply filter_fuse.
    - apply Hext. intros p. now rewrite andb_true_r. }
  rewrite Hc. destruct showFavoritesOnly.
  - rewrite filter_fuse. reflexivity.
  - apply Hext. intros p. now rewrite andb_true_r.
Qed.

End DisplayFacts.

Module OwnFacts.

Import Geo Poll PollFacts.
Local Open Scope R_scope.
Local Open Scope list_scope.

(** X23.  Once the seen array is not empty, loading the posts again,
    whether the request succeeds or fails, leaves the seen array and the
    owned array as they are and raises no notification; after a successful
    load the posts are the ones fetched. *)
Theorem reload_keeps_registries (s : AppState) (r : FetchResult) :
  lastSeenPostIds s <> [] ->
  lastSeenPostIds (fst (load_posts s r)) = lastSeenPostIds s /\
  myPostIds (fst (load_posts s r)) = myPostIds s /\
  snd (load_posts s r) = [] /\
  posts (fst (load_posts s r)) =
    match r with FetchOk data => data | FetchFailed => posts s end.
Proof.
  intros H. destruct r as [data |].
  - rewrite load_posts_ok. cbn [fst snd]. rewrite effects_seen.
    destruct (effects_fixed (fst (commit s (fetchPosts s (FetchOk data)))))
      as (-> & -> & _).
    simpl. unfold baseline_ids. destruct data; destruct (lastSeenPostIds s);
      try contradiction; tauto.
  - simpl. tauto.
Qed.

Lemma reload_keeps_registries_witness :
  lastSeenPostIds Sample.settled <> [] /\
  lastSeenPostIds (fst (load_posts Sample.settled (FetchOk [Sample.desk]))) = ["p0"].
Proof.
  assert (H : lastSeenPostIds Sample.settled <> []) by discriminate.
  split; [exact H |].
  exact (proj1 (reload_keeps_registries Sample.settled (FetchOk [Sample.desk]) H)).
Defined.

End OwnFacts.

(** * Sessions with requests in flight *)

Module AsyncFacts.

Import Geo Poll Async PollFacts.
Local Open Scope R_scope.
Local Open Scope list_scope.

(** *** A check answered on a state other than the one it holds *)

Lemma check_posts_on (snap live : AppState) (feed : list Post) :
  posts (fst (commit live (checkForUpdates snap (FetchOk feed)))) = feed.
Proof.
  unfold checkForUpdates. cbn [commit apply]. rewrite app_assoc, commit_app.
  destruct (commit live _) as [s1 n1]. reflexivity.
Qed.

Lemma baseline_ids_mono (ps : list Post) (seen : list string) (j : string) :
  In j seen -> In j (baseline_ids ps seen).
Proof.
  unfold baseline_ids. destruct ps; [trivial |]. destruct seen; simpl; tauto.
Qed.

Lemma fc_log (snap live : AppState) (feed : list Post) :
  snd (finish_check snap live (FetchOk feed)) =
  nearby_notes snap feed ++ shown (flat_map (collected_body feed) (myPostIds snap)).
Proof.
  rewrite finish_check_ok. cbn [snd].
  now destruct (check_reading snap feed) as (_ & _ & _ & _ & ->).
Qed.

Lemma fc_nearby (snap live : AppState) (feed : list Post) :
  subjects nearby (snd (finish_check snap live (FetchOk feed))) =
  match userLocation snap with
  | Some loc => map id (filter (qualifies snap loc) feed)
  | None => []
  end.
Proof.
  rewrite finish_check_ok. cbn [snd].
  now destruct (check_reading snap feed) as (-> & _ & -> & _).
Qed.

Lemma fc_collected (snap live : AppState) (feed : list Post) :
  subjects collected (snd (finish_check snap live (FetchOk feed))) =
  filter (was_collected feed) (myPostIds snap).
Proof.
  rewrite finish_check_ok. cbn [snd].
  now destruct (check_reading snap feed) as (_ & -> & _ & -> & _).
Qed.

Lemma fc_seen (snap live : AppState) (feed : list Post) :
  lastSeenPostIds (fst (finish_check snap live (FetchOk feed))) =
  baseline_ids feed
    (lastSeenPostIds live ++
     subjects nearby (snd (finish_check snap live (FetchOk feed)))).
Proof.
  rewrite finish_check_ok. cbn [fst snd].
  rewrite effects_seen, check_posts_on, commit_seen.
  now destruct (check_reading snap feed) as (-> & _).
Qed.

Lemma fc_seen_mono (snap live : AppState) (r : FetchResult) (j : string) :
  In j (lastSeenPostIds live) ->
  In j (lastSeenPostIds (fst (finish_check snap live r))).
Proof.
  intros H. destruct r as [feed |]; [| exact H].
  rewrite fc_seen. apply baseline_ids_mono, in_or_app. now left.
Qed.

Lemma fc_notified_seen (snap live : AppState) (r : FetchResult) (j : string) :
  In j (subjects nearby (snd (finish_check snap live r))) ->
  In j (lastSeenPostIds (fst (finish_check snap live r))).
Proof.
  intros H. destruct r as [feed |]; [| contradiction].
  rewrite fc_seen. apply baseline_ids_mono, in_or_app. now right.
Qed.

Lemma fc_nearby_unseen (snap live : AppState) (r : FetchResult) (j : string) :
  In j (subjects nearby (snd (finish_check snap live r))) ->
  ~ In j (lastSeenPostIds snap) /\ ~ In j (myPostIds snap).
Proof.
  destruct r as [feed |]; [| contradiction].
  rewrite fc_nearby. destruct (userLocation snap) as [loc |]; [| contradiction].
  rewrite in_map_iff. intros [p [<- Hp]]. apply filter_In in Hp.
  destruct Hp as [_ Hq]. apply qualifies_unseen in Hq. tauto.
Qed.

Lemma fc_seen_silent (snap live : AppState) (r : FetchResult) (j : string) :
  In j (lastSeenPostIds snap) ->
  ~ In j (subjects nearby (snd (finish_check snap live r))).
Proof. intros H Hn. apply fc_nearby_unseen in Hn. tauto. Qed.

Lemma fc_mine (snap live : AppState) (r : FetchResult) (x : string) :
  In x (myPostIds (fst (finish_check snap live r))) <->
  In x (myPostIds live) /\
  ~ In x (subjects collected (snd (finish_check snap live r))).
Proof.
  destruct r as [feed |]; [| simpl; tauto].
  rewrite finish_check_ok. cbn [fst snd].
  destruct (effects_fixed (fst (commit live (checkForUpdates snap (FetchOk feed)))))
    as (_ & -> & _).
  rewrite commit_mine. destruct (check_reading snap feed) as (_ & -> & _). tauto.
Qed.



Lemma fc_nearby_iff (snap live : AppState) (feed : list Post) (loc : Location)
    (n : Notification) :
  userLocation snap = Some loc ->
  (In n (snd (finish_check snap live (FetchOk feed))) /\ kind n = nearby) <->
  (exists p, In p feed /\ n = mkNote nearby (id p) (title p) /\
             status p = "active" /\
             getDistance (fst loc) (snd loc) (latitude p) (longitude p) <= nearbyRadius /\
             ~ In (id p) (lastSeenPostIds snap) /\ ~ In (id p) (myPostIds snap)).
Proof.
  intros Hl. rewrite fc_log. unfold nearby_notes. rewrite Hl. split.
  - intros [Hin Hk]. apply in_app_or in Hin. destruct Hin as [Hin | Hin].
    + apply in_map_iff in Hin. destruct Hin as [p [<- Hp]].
      apply filter_In in Hp. destruct Hp as [Hp Hq].
      apply qualifies_unseen in Hq. exists p. tauto.
    + apply SessionFacts.collected_notes_kind in Hin. congruence.
  - intros [p (Hp & -> & Hs & Hd & Hseen & Hmine)]. split; [| reflexivity].
    apply in_or_app. left.
    apply in_map with (f := fun q => mkNote nearby (id q) (title q)).
    apply filter_In. split; [assumption |]. unfold qualifies.
    rewrite !andb_true_iff, !negb_true_iff, !includes_not_In.
    rewrite NumFacts.leb_true, String.eqb_eq. tauto.
Qed.

Lemma fl_facts (snap live : AppState) (r : FetchResult) :
  snd (finish_load snap live r) = [] /\
  myPostIds (fst (finish_load snap live r)) = myPostIds live /\
  lastSeenPostIds (fst (finish_load snap live r)) =
    match r with
    | FetchOk data => baseline_ids data (lastSeenPostIds live)
    | FetchFailed => lastSeenPostIds live
    end.
Proof.
  destruct r as [data |]; [| simpl; tauto].
  unfold finish_load, fetchPosts. cbn [commit apply fst snd app].
  rewrite effects_seen.
  match goal with |- context [effects ?t] =>
    destruct (effects_fixed t) as (_ & -> & _) end.
  simpl. tauto.
Qed.

Lemma fl_seen_mono (snap live : AppState) (r : FetchResult) (j : string) :
  In j (lastSeenPostIds live) ->
  In j (lastSeenPostIds (fst (finish_load snap live r))).
Proof.
  intros H. destruct (fl_facts snap live r) as (_ & _ & ->).
  destruct r; [now apply baseline_ids_mono | exact H].
Qed.

Lemma created_facts (captured : list string) (s : AppState) (j : string) :
  lastSeenPostIds (created captured s j) = lastSeenPostIds s /\
  myPostIds (created captured s j) =
    (if j =? EmptyString then myPostIds s else captured ++ [j]).
Proof. unfold created. destruct (j =? EmptyString); simpl; tauto. Qed.

Lemma set_radius_fixed (s : AppState) (r : R) :
  lastSeenPostIds (set_radius s r) = lastSeenPostIds s /\
  myPostIds (set_radius s r) = myPostIds s.
Proof.
  unfold set_radius.
  destruct (refilter_fixed
      (mkState (posts s) (filteredPosts s) (loading s) (userLocation s) r
               (myPostIds s) (lastSeenPostIds s) (nearbyNotificationsEnabled s)
               (favorites s))) as (_ & -> & -> & _). simpl. tauto.
Qed.

(** *** The callbacks that wait *)

Lemma In_remove_nth {A : Type} (k : nat) (l : list A) (x : A) :
  In x (remove_nth k l) -> In x l.
Proof.
  revert k. induction l as [| a l IH]; intros k; destruct k; simpl; try tauto.
  intros [H | H]; [now left | right; eauto].
Qed.

Lemma filter_remove_false {A : Type} (f : A -> bool) (k : nat) (l : list A) (p : A) :
  nth_error l k = Some p -> f p = false ->
  filter f (remove_nth k l) = filter f l.
Proof.
  revert k. induction l as [| a l IH]; intros k; destruct k; simpl; try discriminate.
  - intros H Hf. inversion H; subst. now rewrite Hf.
  - intros H Hf. rewrite (IH k H Hf). reflexivity.
Qed.

Lemma filter_remove_single {A : Type} (f : A -> bool) (k : nat) (l : list A) (p : A) :
  nth_error l k = Some p -> f p = true ->
  (List.length (filter f l) <= 1)%nat ->
  filter f l = [p] /\ filter f (remove_nth k l) = [].
Proof.
  revert k. induction l as [| a l IH]; intros k; destruct k; simpl; try discriminate.
  - intros H Hf. inversion H; subst. rewrite Hf. simpl. intros Hl.
    destruct (filter f l); [tauto | simpl in Hl; lia].
  - intros H Hf. destruct (f a) eqn:Ha; simpl; intros Hl.
    + exfalso. assert (Hin : In p (filter f l)).
      { apply filter_In. split; [eapply nth_error_In; eassumption | assumption]. }
      destruct (filter f l); [contradiction | simpl in Hl; lia].
    + now apply IH.
Qed.

Lemma checks_of_jobs (l : list Pending) :
  filter is_check l = filter is_check (filter is_job l).
Proof.
  induction l as [| p l IH]; simpl; [reflexivity |].
  destruct p; simpl; now rewrite IH.
Qed.

Lemma not_busy (c : Session) : busy c = false <-> filter is_job (waiting c) = [].
Proof.
  unfold busy. induction (waiting c) as [| p l IH]; simpl; [tauto |].
  destruct (is_job p); simpl; [split; discriminate | exact IH].
Qed.

(** The case analysis of one event. *)
Ltac event_cases c e :=
  destruct e; cbn [happen];
  try match goal with
      | |- context [nearbyNotificationsEnabled (live c)] =>
          destruct (nearbyNotificationsEnabled (live c)) eqn:?He
      end;
  try match goal with
      | |- context [nth_error (waiting c) ?k] =>
          destruct (nth_error (waiting c) k) as [[?snap | ?snap | ?snap | ?snap] |] eqn:?Hk
      end;
  try match goal with
      | |- context [Req_dec_T ?r ?x] => destruct (Req_dec_T r x)
      end;
  cbn [fst snd live waiting].

Lemma happen_seen_mono (c : Session) (e : Event) (j : string) :
  In j (lastSeenPostIds (live c)) ->
  In j (lastSeenPostIds (live (fst (happen c e)))).
Proof.
  intros H. event_cases c e; trivial;
  first
    [ now apply fc_seen_mono
    | now apply fl_seen_mono
    | match goal with |- context [created ?m ?s ?x] =>
        now destruct (created_facts m s x) as [-> _] end
    | match goal with |- context [locate ?s ?l] =>
        now destruct (locate_fixed s l) as (_ & -> & _) end
    | match goal with |- context [set_radius ?s ?x] =>
        now destruct (set_radius_fixed s x) as [-> _] end ].
Qed.

Lemma play_seen_mono (events : list Event) (c : Session) (j : string) :
  In j (lastSeenPostIds (live c)) ->
  In j (lastSeenPostIds (live (fst (play c events)))).
Proof.
  revert c. induction events as [| e events IH]; intros c H; cbn [play]; [exact H |].
  pose proof (happen_seen_mono c e j H) as H1.
  destruct (happen c e) as [c1 n1]. specialize (IH c1 H1).
  destruct (play c1 events) as [c2 n2]. exact IH.
Qed.

Lemma happen_checks (c : Session) (e : Event) (snap : AppState) :
  In (CheckSent snap) (waiting (fst (happen c e))) ->
  In (CheckSent snap) (waiting c) \/ snap = live c.
Proof.
  event_cases c e; intros Hin;
    try (apply in_app_or in Hin; destruct Hin as [Hin | [Hin | []]]);
    try apply In_remove_nth in Hin; try tauto; try discriminate.
  inversion Hin. now right.
Qed.

Lemma happen_nearby (c : Session) (e : Event) (j : string) :
  In j (subjects nearby (snd (happen c e))) ->
  exists snap, In (CheckSent snap) (waiting c) /\
               ~ In j (lastSeenPostIds snap) /\ ~ In j (myPostIds snap).
Proof.
  event_cases c e; try (simpl; tauto).
  - intros Hn. apply fc_nearby_unseen in Hn.
    eexists. split; [eapply nth_error_In; eassumption | exact Hn].
  - match goal with |- context [finish_load ?a ?b ?r] =>
      destruct (fl_facts a b r) as (-> & _) end. simpl. tauto.
Qed.

Lemma happen_covered (c : Session) (e : Event) (i : string) :
  covered i c ->
  covered i (fst (happen c e)) /\ ~ In i (subjects nearby (snd (happen c e))).
Proof.
  intros [Hl Hw]. repeat split.
  - now apply happen_seen_mono.
  - intros snap Hin. apply happen_checks in Hin.
    destruct Hin as [Hin | ->]; auto.
  - intros Hn. apply happen_nearby in Hn. destruct Hn as (snap & Hin & Hn & _).
    apply Hn, Hw, Hin.
Qed.

Lemma play_covered (events : list Event) (c : Session) (i : string) :
  covered i c ->
  covered i (fst (play c events)) /\ ~ In i (subjects nearby (snd (play c events))).
Proof.
  revert c. induction events as [| e events IH]; intros c H; cbn [play].
  - split; [exact H | simpl; tauto].
  - destruct (happen_covered c e i H) as [H1 H2].
    destruct (happen c e) as [c1 n1]. cbn [fst snd] in *.
    destruct (IH c1 H1) as [H3 H4].
    destruct (play c1 events) as [c2 n2]. cbn [fst snd] in *.
    split; [exact H3 |]. rewrite subjects_app. intros Hin.
    apply in_app_or in Hin. tauto.
Qed.

Lemma happen_notified_seen (c : Session) (e : Event) (j : string) :
  In j (subjects nearby (snd (happen c e))) ->
  In j (lastSeenPostIds (live (fst (happen c e)))).
Proof.
  event_cases c e; try (simpl; tauto).
  - apply fc_notified_seen.
  - match goal with |- context [snd (finish_load ?a ?b ?r)] =>
      destruct (fl_facts a b r) as (-> & _) end. simpl. tauto.
Qed.

(** *** What one event does, in four cases *)

(** Either the event raises nothing and leaves the jobs and the owned
    array as they are; or it starts a job that holds the state of the
    component; or it is the answer to a check; or it ends a submission. *)
Lemma happen_shape (c : Session) (e : Event) :
  (snd (happen c e) = [] /\
   jobs (fst (happen c e)) = jobs c /\
   myPostIds (live (fst (happen c e))) = myPostIds (live c))
  \/
  (starts_job e = true /\ snd (happen c e) = [] /\
   live (fst (happen c e)) = live c /\
   exists p, is_job p = true /\ held p = live c /\
             waiting (fst (happen c e)) = waiting c ++ [p])
  \/
  (exists k snap r,
     e = Answered k r /\
     nth_error (waiting c) k = Some (CheckSent snap) /\
     happen c e =
       (mkSession (fst (finish_check snap (live c) r)) (remove_nth k (waiting c)),
        snd (finish_check snap (live c) r)))
  \/
  (exists k snap,
     nth_error (waiting c) k = Some (SubmitSent snap) /\
     snd (happen c e) = [] /\
     jobs (fst (happen c e)) = filter is_job (remove_nth k (waiting c)) /\
     lastSeenPostIds (live (fst (happen c e))) = lastSeenPostIds (live c) /\
     (myPostIds (live (fst (happen c e))) = myPostIds (live c) \/
      exists j, e = Posted k j /\
                myPostIds (live (fst (happen c e))) = myPostIds snap ++ [j])).
Proof.
  unfold jobs.
  event_cases c e;
  try (left; split; [reflexivity |]; split;
       [ rewrite ?filter_app; simpl; rewrite ?app_nil_r;
         try (erewrite filter_remove_false by (eassumption || reflexivity));
         reflexivity
       | first
           [ reflexivity
           | match goal with |- context [finish_load ?a ?b ?r] =>
               now destruct (fl_facts a b r) as (_ & -> & _) end
           | match goal with |- context [locate ?s ?l] =>
               now destruct (locate_fixed s l) as (_ & _ & -> & _) end
           | match goal with |- context [set_radius ?s ?x] =>
               now destruct (set_radius_fixed s x) as [_ ->] end ] ]);
  try (right; left; repeat split; eexists; repeat split; reflexivity).
  - right; right; left. exists k, snap, response. cbn [happen]. now rewrite Hk.
  - match goal with |- context [finish_load ?a ?b ?r] =>
      destruct (fl_facts a b r) as (-> & _) end.
    left. repeat split.
    erewrite filter_remove_false by (eassumption || reflexivity). reflexivity.
    match goal with |- context [finish_load ?a ?b ?r] =>
      now destruct (fl_facts a b r) as (_ & -> & _) end.
  - right; right; right. exists k, snap. repeat split; trivial.
    + rewrite filter_app. simpl. now rewrite app_nil_r.
    + now destruct (created_facts (myPostIds snap) (live c) newPostId) as [-> _].
    + destruct (created_facts (myPostIds snap) (live c) newPostId) as [_ ->].
      destruct (newPostId =? EmptyString); [now left | right].
      now exists newPostId.
  - right; right; right. exists k, snap. repeat split; trivial. now left.
Qed.

(** *** One check or submission at a time *)

Lemma idle_jobs (c : Session) : busy c = false <-> jobs c = [].
Proof. apply not_busy. Qed.

Lemma idle_steady (c : Session) : busy c = false -> steady c.
Proof. intros H. apply idle_jobs in H. unfold steady. now rewrite H. Qed.

Lemma steady_single (c : Session) (k : nat) (p : Pending) :
  steady c -> nth_error (waiting c) k = Some p -> is_job p = true ->
  jobs c = [p] /\ filter is_job (remove_nth k (waiting c)) = [] /\
  myPostIds (held p) = myPostIds (live c) /\
  incl (lastSeenPostIds (held p)) (lastSeenPostIds (live c)).
Proof.
  intros Hs Hk Hp.
  assert (Hl : (List.length (filter is_job (waiting c)) <= 1)%nat).
  { unfold steady, jobs in Hs. destruct (filter is_job (waiting c)) as [| a [| b l]];
      simpl; solve [lia | contradiction]. }
  destruct (filter_remove_single is_job k (waiting c) p Hk Hp Hl) as [H1 H2].
  unfold steady, jobs in *. rewrite H1 in Hs. tauto.
Qed.

Lemma happen_steady (c : Session) (e : Event) :
  steady c -> (starts_job e = true -> busy c = false) ->
  steady (fst (happen c e)).
Proof.
  intros Hs Hg. pose proof (happen_seen_mono c e) as Hm.
  destruct (happen_shape c e)
    as [(_ & Hj & Hmine) | [(He & _ & Hl & p & Hp & Hh & Hw)
       | [(k & snap & r & Hev & Hk & Heq) | (k & snap & Hk & _ & Hj & _)]]].
  - unfold steady in *. rewrite Hj. destruct (jobs c) as [| p [| q l]]; trivial.
    rewrite Hmine. destruct Hs as [H1 H2]. split; [exact H1 |].
    intros x Hx. apply Hm, H2, Hx.
  - apply Hg, idle_jobs in He. unfold steady, jobs in *.
    rewrite Hw, filter_app, He. simpl. rewrite Hp, Hh, Hl.
    split; [reflexivity | apply incl_refl].
  - rewrite Heq. cbn [fst].
    destruct (steady_single c k _ Hs Hk eq_refl) as (_ & H0 & _).
    unfold steady, jobs. cbn [waiting]. now rewrite H0.
  - destruct (steady_single c k _ Hs Hk eq_refl) as (_ & H0 & _).
    unfold steady. now rewrite Hj, H0.
Qed.

(** *** The owned array over a session *)



Lemma happen_owned_nearby (c : Session) (e : Event) (i : string) :
  steady c -> In i (myPostIds (live c)) ->
  ~ In i (subjects nearby (snd (happen c e))).
Proof.
  intros Hs Hi Hn. apply happen_nearby in Hn.
  destruct Hn as (snap & Hin & _ & Hn). apply Hn.
  apply In_nth_error in Hin. destruct Hin as [k Hk].
  destruct (steady_single c k _ Hs Hk eq_refl) as (_ & _ & Hmine & _).
  cbn [held] in Hmine. now rewrite Hmine.
Qed.

Lemma happen_owned_kept (c : Session) (e : Event) (i : string) :
  steady c -> In i (myPostIds (live c)) ->
  ~ In i (subjects collected (snd (happen c e))) ->
  In i (myPostIds (live (fst (happen c e)))).
Proof.
  intros Hs Hi Hc.
  destruct (happen_shape c e)
    as [(_ & _ & Hmine) | [(_ & _ & Hl & _)
       | [(k & snap & r & Hev & Hk & Heq) | (k & snap & Hk & _ & _ & _ & Hmine)]]].
  - now rewrite Hmine.
  - now rewrite Hl.
  - rewrite Heq in *. cbn [fst snd live] in *. apply fc_mine. tauto.
  - destruct Hmine as [-> | (j & _ & ->)]; [assumption |].
    destruct (steady_single c k _ Hs Hk eq_refl) as (_ & _ & Hmine & _).
    cbn [held] in Hmine. rewrite Hmine. apply in_or_app. now left.
Qed.

Lemma play_owned_nearby (events : list Event) (c : Session) (i : string) :
  steady c -> one_at_a_time c events ->
  In i (myPostIds (live c)) ->
  ~ In i (subjects collected (snd (play c events))) ->
  In i (myPostIds (live (fst (play c events)))) /\
  ~ In i (subjects nearby (snd (play c events))).
Proof.
  revert c. induction events as [| e events IH]; intros c Hs Ho Hi Hc; cbn [play] in *.
  - simpl. tauto.
  - destruct Ho as [Hg Ho].
    pose proof (happen_owned_kept c e i Hs Hi) as H1.
    pose proof (happen_steady c e Hs Hg) as Hs1.
    pose proof (happen_owned_nearby c e i Hs Hi) as H2.
    destruct (happen c e) as [c1 n1]. cbn [fst snd] in *.
    specialize (IH c1 Hs1 Ho).
    destruct (play c1 events) as [c2 n2]. cbn [fst snd] in *.
    rewrite subjects_app in *.
    assert (Hc1 : ~ In i (subjects collected n1)) by (intros H; apply Hc, in_or_app; now left).
    assert (Hc2 : ~ In i (subjects collected n2)) by (intros H; apply Hc, in_or_app; now right).
    destruct (IH (H1 Hc1) Hc2) as [IH1 IH2].
    split; [exact IH1 |].
    intros Hin. apply in_app_or in Hin. tauto.
Qed.

(** *** The seen array over a session *)

Lemma fence_jobs (c : Session) :
  fence c =
  match filter is_check (jobs c) with
  | p :: _ => lastSeenPostIds (held p)
  | [] => lastSeenPostIds (live c)
  end.
Proof. unfold fence, jobs. now rewrite <- checks_of_jobs. Qed.

Lemma happen_fence (c : Session) (e : Event) :
  steady c -> (starts_job e = true -> busy c = false) -> distinct_feed e ->
  NoDup (subjects nearby (snd (happen c e))) /\
  (forall i, In i (subjects nearby (snd (happen c e))) -> ~ In i (fence c)) /\
  (forall i, In i (subjects nearby (snd (happen c e))) ->
             In i (fence (fst (happen c e)))) /\
  incl (fence c) (fence (fst (happen c e))).
Proof.
  intros Hs Hg Hd. pose proof (happen_seen_mono c e) as Hm.
  pose proof (happen_steady c e Hs Hg) as Hs1.
  destruct (happen_shape c e)
    as [(Hn & Hj & _) | [(He & Hn & Hl & p & Hp & Hh & Hw)
       | [(k & snap & r & Hev & Hk & Heq) | (k & snap & Hk & Hn & Hj & Hseen & _)]]].
  - rewrite Hn. repeat split; try constructor; try (simpl; tauto).
    rewrite !fence_jobs, Hj.
    destruct (filter is_check (jobs c)); [| apply incl_refl].
    intros x Hx. now apply Hm.
  - rewrite Hn. repeat split; try constructor; try (simpl; tauto).
    apply Hg, idle_jobs in He. rewrite !fence_jobs. unfold jobs in *.
    rewrite Hw, filter_app, He. simpl. rewrite Hp. simpl.
    destruct (is_check p); rewrite ?Hh, ?Hl; apply incl_refl.
  - destruct (steady_single c k _ Hs Hk eq_refl) as (Hj & H0 & _ & Hincl).
    cbn [held] in Hincl.
    assert (Hf : fence c = lastSeenPostIds snap) by (rewrite fence_jobs, Hj; reflexivity).
    assert (Hf1 : fence (fst (happen c e)) = lastSeenPostIds (live (fst (happen c e)))).
    { rewrite fence_jobs. unfold jobs. rewrite Heq. cbn [fst waiting]. now rewrite H0. }
    rewrite Hf, Hf1. repeat split.
    + rewrite Heq. cbn [snd]. destruct r as [feed |]; [| constructor].
      rewrite fc_nearby. destruct (userLocation snap); [| constructor].
      apply SessionFacts.NoDup_map_filter.
      rewrite Hev in Hd. exact Hd.
    + intros i Hi. rewrite Heq in Hi. cbn [snd] in Hi.
      now apply fc_nearby_unseen in Hi.
    + intros i. apply happen_notified_seen.
    + intros x Hx. apply Hm, Hincl, Hx.
  - rewrite Hn. repeat split; try constructor; try (simpl; tauto).
    destruct (steady_single c k _ Hs Hk eq_refl) as (Hjc & H0 & _).
    rewrite !fence_jobs, Hj, H0, Hjc. simpl. rewrite Hseen. apply incl_refl.
Qed.

Lemma play_fence (events : list Event) (c : Session) :
  steady c -> one_at_a_time c events -> Forall distinct_feed events ->
  NoDup (subjects nearby (snd (play c events))) /\
  (forall i, In i (subjects nearby (snd (play c events))) -> ~ In i (fence c)).
Proof.
  revert c. induction events as [| e events IH]; intros c Hs Ho Hd; cbn [play].
  - split; [constructor | intros i []].
  - destruct Ho as [Hg Ho]. inversion Hd as [| ? ? Hde Hdr]; subst.
    destruct (happen_fence c e Hs Hg Hde) as (F1 & F2 & F3 & F4).
    pose proof (happen_steady c e Hs Hg) as Hs1.
    destruct (happen c e) as [c1 n1]. cbn [fst snd] in *.
    destruct (IH c1 Hs1 Ho Hdr) as [R1 R2].
    destruct (play c1 events) as [c2 n2]. cbn [fst snd] in *.
    rewrite subjects_app. split.
    + apply SessionFacts.NoDup_app_disjoint; trivial.
      intros x Hx Hx2. apply (R2 x Hx2). now apply F3.
    + intros i Hi. apply in_app_or in Hi. destruct Hi as [Hi | Hi].
      * now apply F2.
      * intros Hin. apply (R2 i Hi). now apply F4.
Qed.

(** *** The seen array, with requests in flight *)

Lemma play_cons (c : Session) (e : Event) (rest : list Event) :
  play c (e :: rest) =
  (fst (play (fst (happen c e)) rest),
   snd (happen c e) ++ snd (play (fst (happen c e)) rest)).
Proof.
  cbn [play]. destruct (happen c e) as [c1 n1]. cbn [fst snd].
  now destruct (play c1 rest).
Qed.





(** *** The owned array, with requests in flight *)




(** *** The first list of posts *)

(** C3, as the code has it.  Let the seen array be empty, in the component
    and in the callback that made the request, and let the answer bring a
    list of posts that is not empty.  When [fetchPosts] made the request
    (the load on mount, or a reload), no notification is raised and the
    seen array becomes the ids of the list.  When a check of the polling
    interval made it, the check raises no nearby notification without a
    location fix, and with one it raises the nearby notifications of
    exactly the active posts of the list within the nearby radius that the
    device does not own; the seen array becomes the ids of the list if the
    check raised no nearby notification, and the ids it notified otherwise.
    In both cases, whatever happens afterwards, a check that starts later
    raises no nearby notification for an id the seen array then holds; and
    while no check that was started before waits for its answer, no later
    event raises one. *)
Theorem first_posts_become_baseline (snap lv : AppState) (data : list Post) :
  lastSeenPostIds snap = [] -> lastSeenPostIds lv = [] -> data <> [] ->
  (snd (finish_load snap lv (FetchOk data)) = [] /\
   lastSeenPostIds (fst (finish_load snap lv (FetchOk data))) = map id data) /\
  ((userLocation snap = None ->
    subjects nearby (snd (finish_check snap lv (FetchOk data))) = []) /\
   (forall loc n, userLocation snap = Some loc ->
      (In n (snd (finish_check snap lv (FetchOk data))) /\ kind n = nearby <->
       exists p, In p data /\ n = mkNote nearby (id p) (title p) /\
                 status p = "active" /\
                 getDistance (fst loc) (snd loc) (latitude p) (longitude p)
                   <= nearbyRadius /\
                 ~ In (id p) (myPostIds snap))) /\
   lastSeenPostIds (fst (finish_check snap lv (FetchOk data))) =
     match subjects nearby (snd (finish_check snap lv (FetchOk data))) with
     | [] => map id data
     | notified => notified
     end) /\
  (forall st w later,
     st = fst (finish_load snap lv (FetchOk data)) \/
     st = fst (finish_check snap lv (FetchOk data)) ->
     (forall i lv' r, In i (lastSeenPostIds st) ->
        ~ In i (subjects nearby
                  (snd (finish_check (live (fst (play (mkSession st w) later)))
                                     lv' r)))) /\
     ((forall started, ~ In (CheckSent started) w) ->
      forall n, In n (snd (play (mkSession st w) later)) -> kind n = nearby ->
                ~ In (subject n) (lastSeenPostIds st))).
Proof.
  intros Hsnap Hlv Hd. split; [| split; [split; [| split] |]].
  - destruct (fl_facts snap lv (FetchOk data)) as (H1 & _ & H2).
    split; [exact H1 |]. rewrite H2, Hlv.
    destruct data; [contradiction | reflexivity].
  - intros Hloc. rewrite fc_nearby. now rewrite Hloc.
  - intros loc n Hloc. rewrite (fc_nearby_iff snap lv data loc n Hloc).
    split; intros [p Hp]; exists p; rewrite ?Hsnap; simpl; tauto.
  - rewrite fc_seen, Hlv. cbn [app].
    destruct data; [contradiction |].
    now destruct (subjects nearby (snd (finish_check snap lv (FetchOk (p :: data))))).
  - intros st w later _. split.
    + intros i lv' r Hi. apply fc_seen_silent.
      now apply (play_seen_mono later (mkSession st w) i).
    + intros Hw n Hn Hk Hin.
      destruct (play_covered later (mkSession st w) (subject n)) as [_ Hno].
      * split; [exact Hin |]. intros started Hs. now apply Hw in Hs.
      * apply Hno. apply subjects_In. now exists n.
Qed.

Lemma first_posts_become_baseline_witness :
  (lastSeenPostIds Sample.fresh_located = [] /\ [Sample.chair; Sample.lamp] <> []) /\
  snd (finish_load Sample.fresh_located Sample.fresh_located
         (FetchOk [Sample.chair; Sample.lamp])) = [] /\
  lastSeenPostIds
    (fst (finish_load Sample.fresh_located Sample.fresh_located
            (FetchOk [Sample.chair; Sample.lamp]))) = ["p1"; "p3"].
Proof.
  split; [split; [reflexivity | discriminate] |].
  exact (proj1 (first_posts_become_baseline Sample.fresh_located Sample.fresh_located
                  [Sample.chair; Sample.lamp] eq_refl eq_refl
                  ltac:(discriminate))).
Defined.

(** *** At most one nearby notification for an id *)

(** X1.  Let no check or submission be waiting.  Over any session in which
    no check or submission starts while another waits, and in which the
    feed of every successful check lists each id once, the nearby
    notifications raised have pairwise different subjects, and none of them
    is an id the seen array held when the session started.  Loads, location
    fixes and toggles may come at any moment. *)
Theorem nearby_at_most_once_per_id (c : Session) (events : list Event) :
  busy c = false -> one_at_a_time c events -> Forall distinct_feed events ->
  NoDup (subjects nearby (snd (play c events))) /\
  (forall i, In i (subjects nearby (snd (play c events))) ->
             ~ In i (lastSeenPostIds (live c))).
Proof.
  intros Hb Ho Hd.
  destruct (play_fence events c (idle_steady c Hb) Ho Hd) as [H1 H2].
  split; [exact H1 |]. intros i Hi.
  assert (Hf : fence c = lastSeenPostIds (live c)).
  { rewrite fence_jobs. apply idle_jobs in Hb. now rewrite Hb. }
  rewrite <- Hf. now apply H2.
Qed.

Lemma nearby_at_most_once_per_id_witness :
  NoDup (subjects nearby
           (snd (play (idle Sample.fresh_located)
                      [IntervalFires; Answered 0 (FetchOk [Sample.chair]);
                       IntervalFires;
                       Answered 0 (FetchOk [Sample.chair; Sample.lamp])]))).
Proof.
  assert (H1 : one_at_a_time (idle Sample.fresh_located)
                 [IntervalFires; Answered 0 (FetchOk [Sample.chair]);
                  IntervalFires;
                  Answered 0 (FetchOk [Sample.chair; Sample.lamp])]).
  { simpl. repeat split; intros H; first [reflexivity | discriminate H]. }
  assert (H2 : Forall distinct_feed
                 [IntervalFires; Answered 0 (FetchOk [Sample.chair]);
                  IntervalFires;
                  Answered 0 (FetchOk [Sample.chair; Sample.lamp])]).
  { repeat constructor; simpl; intuition discriminate. }
  exact (proj1 (nearby_at_most_once_per_id (idle Sample.fresh_located)
                  [IntervalFires; Answered 0 (FetchOk [Sample.chair]);
                   IntervalFires;
                   Answered 0 (FetchOk [Sample.chair; Sample.lamp])]
                  eq_refl H1 H2)).
Defined.

(** *** A device and its own post *)

(** X22.  Let no check or submission be waiting.  Over any session in
    which no check or submission starts while another waits, an id that is
    in the owned array and for which no collected notification is raised
    stays in the owned array, and no nearby notification is raised for it:
    a device is not alerted to its own post while it still owns it. *)
Theorem own_post_is_never_nearby (c : Session) (events : list Event) (i : string) :
  busy c = false -> one_at_a_time c events ->
  In i (myPostIds (live c)) ->
  ~ In i (subjects collected (snd (play c events))) ->
  In i (myPostIds (live (fst (play c events)))) /\
  ~ In i (subjects nearby (snd (play c events))).
Proof.
  intros Hb Ho Hi Hc. apply play_owned_nearby; trivial. now apply idle_steady.
Qed.

Lemma own_post_is_never_nearby_witness :
  (In "p1" (myPostIds (live (idle Sample.chair_owner))) /\
   ~ In "p1" (subjects collected
                (snd (play (idle Sample.chair_owner)
                           [IntervalFires; Answered 0 (FetchOk [Sample.chair])])))) /\
  ~ In "p1" (subjects nearby
               (snd (play (idle Sample.chair_owner)
                          [IntervalFires; Answered 0 (FetchOk [Sample.chair])]))).
Proof.
  assert (H1 : one_at_a_time (idle Sample.chair_owner)
                 [IntervalFires; Answered 0 (FetchOk [Sample.chair])]).
  { simpl. repeat split; intros H; first [reflexivity | discriminate H]. }
  assert (H2 : In "p1" (myPostIds (live (idle Sample.chair_owner))))
    by (simpl; now left).
  assert (H3 : ~ In "p1" (subjects collected
                (snd (play (idle Sample.chair_owner)
                           [IntervalFires; Answered 0 (FetchOk [Sample.chair])])))).
  { rewrite !play_cons.
    cbn [play happen idle live waiting fst snd app nth_error remove_nth
         nearbyNotificationsEnabled Sample.chair_owner].
    rewrite app_nil_r, fc_collected. simpl. tauto. }
  split; [split; [exact H2 | exact H3] |].
  exact (proj2 (own_post_is_never_nearby (idle Sample.chair_owner)
                  [IntervalFires; Answered 0 (FetchOk [Sample.chair])] "p1"
                  eq_refl H1 H2 H3)).
Defined.

End AsyncFacts.

(** * The distance in double precision *)

Module DoubleFacts.

Import Stdlib.Floats.Floats.
Import Double.
Local Open Scope float_scope.

Lemma nan_image (x : float) : is_nan x = true <-> Prim2SF x = S754_nan.
Proof.
  unfold is_nan. rewrite eqb_spec. unfold SFeqb.
  destruct (Prim2SF x) as [s | s | | s m e]; simpl.
  - split; discriminate.
  - destruct s; split; discriminate.
  - split; reflexivity.
  - rewrite Z.compare_refl, Pos.compare_cont_refl.
    destruct s; simpl; split; discriminate.
Qed.

Lemma nan_equals_nothing (x y : float) : is_nan x = true -> (x =? y) = false.
Proof.
  intros H. apply nan_image in H. rewrite eqb_spec, H. reflexivity.
Qed.

Lemma nan_times (x y : float) : is_nan y = true -> is_nan (x * y) = true.
Proof.
  intros H. apply nan_image in H. apply nan_image.
  rewrite mul_spec, H. unfold SF64mul, SFmul.
  destruct (Prim2SF x) as [s | s | | s m e]; reflexivity.
Qed.

Section Antipodes.

Variables sin cos : float -> float.
Variable atan2 : float -> float -> float.

(** The sine and the cosine of twelve degrees and the sine of a quarter
    turn, rounded to the nearest double, on either side of zero; an
    [atan2] that returns NaN when its second argument is NaN. *)
Hypothesis sin_twelve : sin 0x1.acee9f37bebd5p-3 = 0x1.a9cd9ac4258f5p-3.
Hypothesis sin_minus_twelve : sin (-0x1.acee9f37bebd5p-3) = -0x1.a9cd9ac4258f5p-3.
Hypothesis sin_quarter : sin 0x1.921fb54442d18p+0 = 1.
Hypothesis sin_minus_quarter : sin (-0x1.921fb54442d18p+0) = -1.
Hypothesis cos_twelve : cos 0x1.acee9f37bebd5p-3 = 0x1.f4cfc327a008p-1.
Hypothesis cos_minus_twelve : cos (-0x1.acee9f37bebd5p-3) = 0x1.f4cfc327a008p-1.
Hypothesis atan2_nan : forall y x, is_nan x = true -> is_nan (atan2 y x) = true.

(** C7.  On doubles the distance between latitude -12, longitude -179 and
    latitude 12, longitude 1, two points opposite each other on the globe,
    is NaN in both directions: the quantity [a] of the formula comes to the
    double after 1, so [1 - a] is negative and its square root is NaN.  The
    two distances do not compare equal, and neither equals any number. *)
Theorem distance_of_antipodes_is_nan :
  is_nan (getDistance sin cos atan2 (-12) (-179) 12 1) = true /\
  is_nan (getDistance sin cos atan2 12 1 (-12) (-179)) = true /\
  (getDistance sin cos atan2 (-12) (-179) 12 1 =?
   getDistance sin cos atan2 12 1 (-12) (-179)) = false /\
  (forall d, (getDistance sin cos atan2 (-12) (-179) 12 1 =? d) = false).
Proof.
  assert (H1 : is_nan (getDistance sin cos atan2 (-12) (-179) 12 1) = true).
  { unfold getDistance. cbv zeta.
    change ((12 - -12) * PI / 180 / 2) with 0x1.acee9f37bebd5p-3.
    change ((1 - -179) * PI / 180 / 2) with 0x1.921fb54442d18p+0.
    change (-12 * PI / 180) with (-0x1.acee9f37bebd5p-3).
    change (12 * PI / 180) with 0x1.acee9f37bebd5p-3.
    rewrite sin_twelve, sin_quarter, cos_twelve, cos_minus_twelve.
    apply nan_times, nan_times, atan2_nan. reflexivity. }
  assert (H2 : is_nan (getDistance sin cos atan2 12 1 (-12) (-179)) = true).
  { unfold getDistance. cbv zeta.
    change ((-12 - 12) * PI / 180 / 2) with (-0x1.acee9f37bebd5p-3).
    change ((-179 - 1) * PI / 180 / 2) with (-0x1.921fb54442d18p+0).
    change (-12 * PI / 180) with (-0x1.acee9f37bebd5p-3).
    change (12 * PI / 180) with 0x1.acee9f37bebd5p-3.
    rewrite sin_minus_twelve, sin_minus_quarter, cos_twelve, cos_minus_twelve.
    apply nan_times, nan_times, atan2_nan. reflexivity. }
  split; [exact H1 |]. split; [exact H2 |]. split.
  - now apply nan_equals_nothing.
  - intros d. now apply nan_equals_nothing.
Qed.

End Antipodes.

Lemma table_atan2_nan (y x : float) :
  is_nan x = true -> is_nan (table_atan2 y x) = true.
Proof. intros H. unfold table_atan2. now rewrite H. Qed.

Lemma distance_of_antipodes_is_nan_witness :
  is_nan (getDistance table_sin table_cos table_atan2 (-12) (-179) 12 1) = true /\
  (getDistance table_sin table_cos table_atan2 (-12) (-179) 12 1 =?
   getDistance table_sin table_cos table_atan2 12 1 (-12) (-179)) = false.
Proof.
  pose proof (distance_of_antipodes_is_nan table_sin table_cos table_atan2
                eq_refl eq_refl eq_refl eq_refl eq_refl eq_refl table_atan2_nan)
    as H.
  split; [exact (proj1 H) | exact (proj1 (proj2 (proj2 H)))].
Defined.

End DoubleFacts.
